(** * nativethread: hard-cancellable native threads for CPython

    A shallow embedding of [src/nativethread.c] and the proofs of the
    properties its specification states.

    The C module has two entry points, [do_interruptably] and [interrupt],
    a thread start routine [nativethread_run_thread], its cancellation
    cleanup handler [nativethread_cancel_handler] and the callback bridge
    [handler_exec].  The embedding threads an explicit [World] (C heap,
    thread table, event trace) through a small state monad whose failure
    stands for undefined behaviour of the C program (use after free,
    double free, reading an indeterminate field).  What the surrounding
    system decides (whether [malloc] succeeds, what [pthread_create]
    returns, when the user routine returns, what a callback returns) is an
    explicit oracle argument, so that theorems quantify over it. *)

From stdpp Require Import base gmap strings list fin_maps infinite pretty.
From Stdlib Require Import ZArith Lia.

Local Open Scope Z_scope.

(* ================================================================== *)
(** ** Data model                                                      *)
(* ================================================================== *)

(** A C heap address returned by [malloc]; [NULL] is not an address. *)
Definition addr := positive.

(** [pthread_t]: an opaque thread identifier. *)
Definition pthread_t := N.

Inductive ExcType :=
| PyExc_TypeError
| PyExc_ValueError
| PyExc_OverflowError
| PyExc_MemoryError
| PyExc_SystemError
| PyExc_Other (name : string).   (* any other exception class, by its name *)

(** The error indicator: exception type and message. *)
Record PyErr := mkErr { err_type : ExcType; err_msg : string }.

Global Instance ExcType_eq_dec : EqDecision ExcType.
Proof. solve_decision. Defined.
Global Instance PyErr_eq_dec : EqDecision PyErr.
Proof. solve_decision. Defined.

(** The kinds of Python object the module distinguishes.  [PyArg_ParseTuple]
    with format [L] converts its argument with [PyLong_AsLongLong]: an
    [int] (or an instance of a subclass, such as [bool]) gives its value,
    any other object is asked for its [__index__].  [KIndex r] is an object
    that is not an [int] and whose type defines [__index__]; [r] is what
    [PyNumber_Index] ends with on it: the value of the [int] returned, or
    the exception that [__index__] raised ([TypeError] from CPython itself
    when it returned something that is not an [int]).  [PyCallable_Check]
    accepts callables, [PyCapsule_CheckExact] accepts capsules; a capsule
    carries a non-NULL pointer and an optional name. *)
Inductive PyKind :=
| KLong (v : Z)
| KCallable
| KCapsule (pointer : addr) (name : option string)
| KNone
| KOther
| KIndex (r : Z + PyErr).

(** A [PyObject*]: the address gives the object's identity. *)
Record PyObject := mkObj { ob_addr : N; ob_kind : PyKind }.

Global Instance PyKind_eq_dec : EqDecision PyKind.
Proof. solve_decision. Defined.
Global Instance PyObject_eq_dec : EqDecision PyObject.
Proof. solve_decision. Defined.

(** The singleton [None]. *)
Definition Py_None : PyObject := mkObj 0%N KNone.

(** What a [PyObject*]-returning C function hands back: an object, or
    [NULL] with the error indicator set. *)
Inductive PyResult :=
| PyOk (o : PyObject)
| PyNULL (e : PyErr).

(** [struct ThreadInfo].  [routine] is [None] while the field has not been
    assigned (line 220 assigns it after the four object fields). *)
Record ThreadInfo := mkThreadInfo {
  ok_cbak : PyObject;
  cancel_cbak : PyObject;
  err_cbak : PyObject;
  data : PyObject;
  routine : option Z
}.

(** What a [malloc]ed block holds. *)
Inductive Block :=
| BUninit
| BThreadInfo (ti : ThreadInfo)
| BThreadId (id : pthread_t).

(** The only routine ever given to [pthread_cleanup_push]. *)
Inductive CleanupHandler := H_nativethread_cancel_handler.

(** Program points of [nativethread_run_thread] (source lines 100-124). *)
Inductive PC :=
| pc_cleanup_push   (* 107: pthread_cleanup_push(nativethread_cancel_handler, data) *)
| pc_enable         (* 108: pthread_setcancelstate(PTHREAD_CANCEL_ENABLE, ..) *)
| pc_async          (* 109: pthread_setcanceltype(PTHREAD_CANCEL_ASYNCHRONOUS, ..) *)
| pc_call_routine   (* 112: thr->routine() is entered *)
| pc_in_routine     (* 112: the user routine is running *)
| pc_disable        (* 117: pthread_setcancelstate(PTHREAD_CANCEL_DISABLE, ..) *)
| pc_cleanup_pop    (* 118: pthread_cleanup_pop(0) *)
| pc_handler_ok     (* 121: handler_exec(thr, thr->ok_cbak) *)
| pc_exited.        (* 123: return NULL, or terminated by cancellation *)

Global Instance PC_eq_dec : EqDecision PC.
Proof. solve_decision. Defined.

(** One OS thread started by [pthread_create]. *)
Record Thread := mkThread {
  th_arg : addr;                               (* the [void* data] argument *)
  th_pc : PC;
  th_cancelstate : bool;                       (* true: PTHREAD_CANCEL_ENABLE *)
  th_canceltype : bool;                        (* true: PTHREAD_CANCEL_ASYNCHRONOUS *)
  th_pending : bool;                           (* a cancellation request is pending *)
  th_cleanup : list (CleanupHandler * addr)    (* cleanup stack, top first *)
}.

(** Who performs an operation: the Python thread that called into the
    module (it holds the GIL), or a spawned thread. *)
Inductive Actor :=
| Main
| Thr (tid : pthread_t).

Global Instance Actor_eq_dec : EqDecision Actor.
Proof. solve_decision. Defined.

Inductive Event :=
| EvMalloc (p : addr)
| EvFree (p : addr)
| EvIncref (o : PyObject)
| EvDecref (o : PyObject)
| EvBuildValue (items : list PyObject)
| EvDecrefArgs (items : list PyObject)
| EvCall (callee : PyObject) (args : list PyObject) (result : option PyObject)
| EvGILEnsure
| EvGILRelease
| EvCleanupPush (h : CleanupHandler) (arg : addr)
| EvCleanupPop (execute : bool)
| EvSetCancelState (enable : bool)
| EvSetCancelType (async : bool)
| EvRoutineEnter (fnptr : Z)
| EvRoutineReturn
| EvCancelActed
| EvThreadCreate (tid : pthread_t) (arg : addr)
| EvPthreadCancel (tid : pthread_t) (rc : Z).

Record World := mkWorld {
  heap : gmap addr Block;
  threads : gmap pthread_t Thread;
  trace : list (Actor * Event)
}.

Definition empty_world : World := mkWorld ∅ ∅ [].

(* ================================================================== *)
(** ** The state monad; [None] is undefined behaviour                  *)
(* ================================================================== *)

Definition M (A : Type) : Type := World → option (A * World).

Definition ret {A} (a : A) : M A := λ w, Some (a, w).

Definition bind {A B} (m : M A) (k : A → M B) : M B :=
  λ w, match m w with
       | Some (a, w') => k a w'
       | None => None
       end.

Definition undefined {A} : M A := λ _, None.

Notation "x <- m ;; k" := (bind m (λ x, k))
  (at level 100, m at next level, right associativity).
Notation "m ;; k" := (bind m (λ _, k))
  (at level 100, right associativity).

Definition emit (who : Actor) (e : Event) : M unit :=
  λ w, Some (tt, mkWorld (heap w) (threads w) (trace w ++ [(who, e)])).

(* ================================================================== *)
(** ** C library and CPython primitives                                *)
(* ================================================================== *)

(** [malloc]: fails when the oracle says so, otherwise returns a block that
    is not currently allocated, with indeterminate contents. *)
Definition malloc (who : Actor) (ok : bool) : M (option addr) :=
  λ w, if ok
       then let p := fresh (dom (heap w)) in
            Some (Some p, mkWorld (<[p := BUninit]> (heap w)) (threads w)
                                  (trace w ++ [(who, EvMalloc p)]))
       else Some (None, w).

(** [free(p)] of a block that is not allocated is undefined. *)
Definition free (who : Actor) (p : addr) : M unit :=
  λ w, match heap w !! p with
       | Some _ => Some (tt, mkWorld (delete p (heap w)) (threads w)
                                     (trace w ++ [(who, EvFree p)]))
       | None => None
       end.

Definition store (p : addr) (b : Block) : M unit :=
  λ w, match heap w !! p with
       | Some _ => Some (tt, mkWorld (<[p := b]> (heap w)) (threads w) (trace w))
       | None => None
       end.

(** Reading [*thr] where a [ThreadInfo] with its object fields is expected. *)
Definition load_info (p : addr) : M ThreadInfo :=
  λ w, match heap w !! p with
       | Some (BThreadInfo ti) => Some (ti, w)
       | _ => None
       end.

(** Reading [*thr_handle] where a [pthread_t] is expected. *)
Definition load_tid (p : addr) : M pthread_t :=
  λ w, match heap w !! p with
       | Some (BThreadId id) => Some (id, w)
       | _ => None
       end.

Definition Py_INCREF (who : Actor) (o : PyObject) : M unit := emit who (EvIncref o).
Definition Py_DECREF (who : Actor) (o : PyObject) : M unit := emit who (EvDecref o).

Definition PyCallable_Check (o : PyObject) : bool :=
  match ob_kind o with
  | KCallable => true
  | _ => false
  end.

Definition PyCapsule_CheckExact (o : PyObject) : bool :=
  match ob_kind o with
  | KCapsule _ _ => true
  | _ => false
  end.

Definition LLONG_MIN : Z := - 2 ^ 63.
Definition LLONG_MAX : Z := 2 ^ 63 - 1.

Definition PyErr_NoMemory : PyResult := PyNULL (mkErr PyExc_MemoryError "").

(** [PyNumber_Index(o)]: the value of an [int], the outcome of [__index__]
    for an object that has one, [TypeError] for any other object.  The
    message of that [TypeError] names the type of the object
    ("'str' object cannot be interpreted as an integer"), which the model
    does not record: its text is left empty. *)
Definition PyNumber_Index (o : PyObject) : Z + PyErr :=
  match ob_kind o with
  | KLong v => inl v
  | KIndex r => r
  | _ => inr (mkErr PyExc_TypeError "")
  end.

(** [PyLong_AsLongLong(o)], the conversion behind format [L]: the integer
    [PyNumber_Index] gives has to fit [long long]. *)
Definition PyLong_AsLongLong (o : PyObject) : Z + PyErr :=
  match PyNumber_Index o with
  | inl v =>
      if bool_decide (LLONG_MIN ≤ v ≤ LLONG_MAX) then inl v
      else inr (mkErr PyExc_OverflowError "int too big to convert")
  | inr e => inr e
  end.

(** The error of [PyArg_ParseTuple] for a tuple of the wrong length. *)
Definition arity_error (expected : string) (given : nat) : PyErr :=
  mkErr PyExc_TypeError
    ("function takes exactly " +:+ expected +:+ " (" +:+ pretty given +:+ " given)").

(** [PyArg_ParseTuple(args, "LOOOO", ...)]: the arity is checked first,
    then the first item is converted to [long long]; [O] stores the item
    as it is, without touching its reference count. *)
Definition PyArg_ParseTuple_LOOOO (args : list PyObject)
  : (Z * PyObject * PyObject * PyObject * PyObject) + PyErr :=
  match args with
  | [a0; a1; a2; a3; a4] =>
      match PyLong_AsLongLong a0 with
      | inl v => inl (v, a1, a2, a3, a4)
      | inr e => inr e
      end
  | _ => inr (arity_error "5 arguments" (length args))
  end.

(** [PyArg_ParseTuple(args, "O", &handle)]. *)
Definition PyArg_ParseTuple_O (args : list PyObject) : PyObject + PyErr :=
  match args with
  | [h] => inl h
  | _ => inr (arity_error "1 argument" (length args))
  end.

(** [PyCapsule_GetPointer(o, name)]: [ValueError] unless [o] is a capsule
    whose name equals [name]. *)
Definition PyCapsule_GetPointer (o : PyObject) (name : string) : addr + PyErr :=
  match ob_kind o with
  | KCapsule p (Some n) =>
      if bool_decide (n = name) then inl p
      else inr (mkErr PyExc_ValueError "PyCapsule_GetPointer called with incorrect name")
  | KCapsule p None =>
      inr (mkErr PyExc_ValueError "PyCapsule_GetPointer called with incorrect name")
  | _ => inr (mkErr PyExc_ValueError "PyCapsule_GetPointer called with invalid PyCapsule object")
  end.

(** errno values of <errno.h> on Linux. *)
Definition EPERM : Z := 1.
Definition ESRCH : Z := 3.
Definition EAGAIN : Z := 11.
Definition ENOMEM : Z := 12.

(* ================================================================== *)
(** ** Oracles: what the surrounding system decides                    *)
(* ================================================================== *)

(** Choices made by the system during one call of [do_interruptably]. *)
Record LaunchOracle := mkLaunchOracle {
  lo_malloc_info : bool;        (* malloc(sizeof(ThreadInfo)) succeeds *)
  lo_attr_init : Z;             (* result of pthread_attr_init *)
  lo_setdetach : Z;             (* result of pthread_attr_setdetachstate *)
  lo_create : Z;                (* result of pthread_create *)
  lo_malloc_handle : bool;      (* malloc(sizeof(pthread_t)) succeeds *)
  lo_capsule : option N         (* PyCapsule_New: address of the new capsule *)
}.

(** Choices made during one scheduling step of a spawned thread: whether
    the user routine returns now, whether [Py_BuildValue] can allocate the
    argument tuple, and what the callback returns ([None]: it raised). *)
Record TickOracle := mkTickOracle {
  to_routine_returns : bool;
  to_build_ok : bool;
  to_call_result : option PyObject
}.

(* ================================================================== *)
(** ** Helper functions of the module (source lines 70-148)            *)
(* ================================================================== *)

Definition THREAD_HANDLE_NAME : string := "nativethread.thread_handle".

(** Reading one field [thr->f]. *)
Definition load_field {A} (thr : addr) (f : ThreadInfo → A) : M A :=
  ti <- load_info thr ;; ret (f ti).

(** [Py_BuildValue("(O)", o)]: a new one-element tuple holding [o], or
    [NULL] when it cannot be allocated. *)
Definition Py_BuildValue_O (who : Actor) (ok : bool) (o : PyObject)
  : M (option (list PyObject)) :=
  if ok then (emit who (EvBuildValue [o]) ;; ret (Some [o])) else ret None.

(** [PyObject_CallObject(callee, args)]: runs the callback; the result is a
    new reference, or [NULL] when the callback raised. *)
Definition PyObject_CallObject (who : Actor) (callee : PyObject)
    (args : list PyObject) (result : option PyObject) : M (option PyObject) :=
  emit who (EvCall callee args result) ;; ret result.

(** [handler_exec] (lines 70-91).  Between [PyGILState_Ensure] and
    [PyGILState_Release] the thread holds the GIL, and it can no longer be
    cancelled when it gets here, so the body is one atomic step. *)
Definition handler_exec (who : Actor) (o : TickOracle) (thr : addr)
    (routine : PyObject) : M unit :=
  emit who EvGILEnsure ;;
  d <- load_field thr data ;;
  args <- Py_BuildValue_O who (to_build_ok o) d ;;
  r <- match args with
       | Some a => PyObject_CallObject who routine a (to_call_result o)
       | None => ret None
       end ;;
  match args with Some a => emit who (EvDecrefArgs a) | None => ret tt end ;;
  match r with Some x => Py_DECREF who x | None => ret tt end ;;
  c1 <- load_field thr ok_cbak ;; Py_DECREF who c1 ;;
  c2 <- load_field thr cancel_cbak ;; Py_DECREF who c2 ;;
  c3 <- load_field thr err_cbak ;; Py_DECREF who c3 ;;
  c4 <- load_field thr data ;; Py_DECREF who c4 ;;
  emit who EvGILRelease ;;
  free who thr.

(** [nativethread_cancel_handler] (lines 94-97). *)
Definition nativethread_cancel_handler (who : Actor) (o : TickOracle)
    (data : addr) : M unit :=
  cb <- load_field data cancel_cbak ;;
  handler_exec who o data cb.

Definition exec_cleanup (who : Actor) (o : TickOracle)
    (h : CleanupHandler * addr) : M unit :=
  match h with
  | (H_nativethread_cancel_handler, arg) => nativethread_cancel_handler who o arg
  end.

(** Acting on a cancellation request runs the cleanup stack, top first. *)
Fixpoint run_cleanup (who : Actor) (o : TickOracle)
    (stack : list (CleanupHandler * addr)) : M unit :=
  match stack with
  | [] => ret tt
  | h :: rest => exec_cleanup who o h ;; run_cleanup who o rest
  end.

Definition set_thread (tid : pthread_t) (t : Thread) : M unit :=
  λ w, Some (tt, mkWorld (heap w) (<[tid := t]> (threads w)) (trace w)).

Definition at_pc (t : Thread) (pc : PC) : Thread :=
  mkThread (th_arg t) pc (th_cancelstate t) (th_canceltype t) (th_pending t)
           (th_cleanup t).

(** One statement of [nativethread_run_thread] (lines 100-124), for a
    thread that is not acting on a cancellation request.  The user routine
    is opaque native code: it runs for as many steps as the oracle decides
    and is assumed not to touch the [World]. *)
Definition nativethread_run_thread_step (tid : pthread_t) (o : TickOracle)
    (t : Thread) : M unit :=
  let who := Thr tid in
  let thr := th_arg t in
  match th_pc t with
  | pc_cleanup_push =>
      emit who (EvCleanupPush H_nativethread_cancel_handler thr) ;;
      set_thread tid
        (mkThread thr pc_enable (th_cancelstate t) (th_canceltype t) (th_pending t)
                  ((H_nativethread_cancel_handler, thr) :: th_cleanup t))
  | pc_enable =>
      emit who (EvSetCancelState true) ;;
      set_thread tid
        (mkThread thr pc_async true (th_canceltype t) (th_pending t) (th_cleanup t))
  | pc_async =>
      emit who (EvSetCancelType true) ;;
      set_thread tid
        (mkThread thr pc_call_routine (th_cancelstate t) true (th_pending t)
                  (th_cleanup t))
  | pc_call_routine =>
      f <- load_field thr routine ;;
      match f with
      | Some fnptr =>
          emit who (EvRoutineEnter fnptr) ;; set_thread tid (at_pc t pc_in_routine)
      | None => undefined
      end
  | pc_in_routine =>
      if to_routine_returns o
      then (emit who EvRoutineReturn ;; set_thread tid (at_pc t pc_disable))
      else ret tt
  | pc_disable =>
      emit who (EvSetCancelState false) ;;
      set_thread tid
        (mkThread thr pc_cleanup_pop false (th_canceltype t) (th_pending t)
                  (th_cleanup t))
  | pc_cleanup_pop =>
      emit who (EvCleanupPop false) ;;
      set_thread tid
        (mkThread thr pc_handler_ok (th_cancelstate t) (th_canceltype t)
                  (th_pending t) (tail (th_cleanup t)))
  | pc_handler_ok =>
      cb <- load_field thr ok_cbak ;;
      handler_exec who o thr cb ;;
      set_thread tid (at_pc t pc_exited)
  | pc_exited => ret tt
  end.

(** A thread acts on a pending request as soon as cancellation is enabled
    and asynchronous. *)
Definition cancellable (t : Thread) : bool :=
  th_pending t && th_cancelstate t && th_canceltype t.

(** Acting on the request: the cleanup handlers run and the thread ends;
    control never returns to [nativethread_run_thread]. *)
Definition act_on_cancel (tid : pthread_t) (o : TickOracle) (t : Thread) : M unit :=
  emit (Thr tid) EvCancelActed ;;
  run_cleanup (Thr tid) o (th_cleanup t) ;;
  set_thread tid
    (mkThread (th_arg t) pc_exited (th_cancelstate t) (th_canceltype t)
              (th_pending t) []).

(** One scheduling step of thread [tid]. *)
Definition tick (tid : pthread_t) (o : TickOracle) : M unit :=
  λ w, match threads w !! tid with
       | None => Some (tt, w)
       | Some t =>
           if bool_decide (th_pc t = pc_exited) then Some (tt, w)
           else if cancellable t then act_on_cancel tid o t w
           else nativethread_run_thread_step tid o t w
       end.

(** [pthread_create(&thr_id, &thr_attrs, nativethread_run_thread, thr)]:
    a new thread starts with cancellation enabled and deferred.  The key
    it gets in the thread table is the identity of the thread: it differs
    from those of all threads started before, which the table keeps when
    they end.  It stands for the [pthread_t] of the thread for as long as
    the thread has not ended; the system may hand the [pthread_t] of an
    ended detached thread to a later one, which the table does not
    show. *)
Definition initial_thread (thr : addr) : Thread :=
  mkThread thr pc_cleanup_push true false false [].

Definition pthread_create (who : Actor) (rc : Z) (thr : addr) : M (Z * pthread_t) :=
  λ w, if bool_decide (rc = 0)
       then let tid := fresh (dom (threads w)) in
            Some ((0, tid),
                  mkWorld (heap w) (<[tid := initial_thread thr]> (threads w))
                          (trace w ++ [(who, EvThreadCreate tid thr)]))
       else Some ((rc, 0%N), w).

(** [pthread_cancel(tid)]: marks the request pending on a thread that has
    not ended and returns [0].  For the identifier of a thread that has
    ended, or of none, the answer taken here is the one POSIX recommends,
    [ESRCH] with nothing changed; a C library need not detect the case,
    and what it then does is not determined by this module.  What is
    proved of [interrupt] itself therefore takes the return code as a
    hypothesis, or is about the handle of a thread that has not ended. *)
Definition pthread_cancel (who : Actor) (tid : pthread_t) : M Z :=
  λ w, match threads w !! tid with
       | Some t =>
           if bool_decide (th_pc t = pc_exited)
           then Some (ESRCH, mkWorld (heap w) (threads w)
                                     (trace w ++ [(who, EvPthreadCancel tid ESRCH)]))
           else Some (0, mkWorld (heap w)
                           (<[tid := mkThread (th_arg t) (th_pc t) (th_cancelstate t)
                                              (th_canceltype t) true (th_cleanup t)]>
                              (threads w))
                           (trace w ++ [(who, EvPthreadCancel tid 0)]))
       | None => Some (ESRCH, mkWorld (heap w) (threads w)
                                      (trace w ++ [(who, EvPthreadCancel tid ESRCH)]))
       end.

(** [PyCapsule_New(p, name, destructor)]. *)
Definition PyCapsule_New (p : addr) (name : string) (new : option N) : PyResult :=
  match new with
  | Some a => PyOk (mkObj a (KCapsule p (Some name)))
  | None => PyErr_NoMemory
  end.

(** [destroy_thread_handle] (lines 132-135), the capsule's destructor. *)
Definition destroy_thread_handle (who : Actor) (handle : PyObject) : M unit :=
  match PyCapsule_GetPointer handle THREAD_HANDLE_NAME with
  | inl thr => free who thr
  | inr _ => ret tt
  end.

(** [make_thread_handle] (lines 138-148). *)
Definition make_thread_handle (who : Actor) (env : LaunchOracle) (id : pthread_t)
  : M PyResult :=
  thr <- malloc who (lo_malloc_handle env) ;;
  match thr with
  | None => ret PyErr_NoMemory
  | Some thr =>
      store thr (BThreadId id) ;;
      ret (PyCapsule_New thr THREAD_HANDLE_NAME (lo_capsule env))
  end.

(* ================================================================== *)
(** ** Module functions (source lines 154-246)                         *)
(* ================================================================== *)

(** [interrupt] (lines 154-179). *)
Definition interrupt (args : list PyObject) : M PyResult :=
  match PyArg_ParseTuple_O args with
  | inr e => ret (PyNULL e)
  | inl handle =>
      if negb (PyCapsule_CheckExact handle)
      then ret (PyNULL (mkErr PyExc_TypeError "expected nativethread.thread_handle"))
      else
        match PyCapsule_GetPointer handle THREAD_HANDLE_NAME with
        | inr e => ret (PyNULL e)
        | inl thr_handle =>
            thr_id <- load_tid thr_handle ;;
            rc <- pthread_cancel Main thr_id ;;
            if bool_decide (rc ≠ 0)
            then ret (PyNULL (mkErr PyExc_SystemError
                                "thread could not be cancelled (no such thread)"))
            else (Py_INCREF Main Py_None ;; ret (PyOk Py_None))
        end
  end.

(** The error raised for a non-zero [failed] (lines 229-243). *)
Definition thread_start_error (failed : Z) : PyErr :=
  if bool_decide (failed = ENOMEM) then mkErr PyExc_MemoryError ""
  else if bool_decide (failed = EAGAIN)
       then mkErr PyExc_SystemError "system could not allocate resources for a new thread"
  else if bool_decide (failed = EPERM)
       then mkErr PyExc_SystemError "could not start thread: insufficient permissions"
  else mkErr PyExc_SystemError "could not start system thread".

(** The assignment [thr->routine = (void* ( * )(void))native_fnptr]. *)
Definition store_routine (thr : addr) (native_fnptr : Z) : M unit :=
  ti <- load_info thr ;;
  store thr (BThreadInfo (mkThreadInfo (ok_cbak ti) (cancel_cbak ti) (err_cbak ti)
                                       (data ti) (Some native_fnptr))).

(** [do_interruptably] (lines 184-246).  The attribute object [thr_attrs]
    is local to the call; of [pthread_attr_init],
    [pthread_attr_setdetachstate] and [pthread_attr_destroy] only the
    results that steer the control flow are kept. *)
Definition do_interruptably (env : LaunchOracle) (args : list PyObject) : M PyResult :=
  thr <- malloc Main (lo_malloc_info env) ;;
  match thr with
  | None => ret PyErr_NoMemory
  | Some thr =>
      match PyArg_ParseTuple_LOOOO args with
      | inr e => free Main thr ;; ret (PyNULL e)
      | inl (native_fnptr, a1, a2, a3, a4) =>
          store thr (BThreadInfo (mkThreadInfo a1 a2 a3 a4 None)) ;;
          c1 <- load_field thr ok_cbak ;;
          c2 <- load_field thr cancel_cbak ;;
          c3 <- load_field thr err_cbak ;;
          if negb (PyCallable_Check c1 && PyCallable_Check c2 && PyCallable_Check c3)
          then
            free Main thr ;;
            ret (PyNULL (mkErr PyExc_TypeError "arguments 2, 3, and 4 must be callable"))
          else
            Py_INCREF Main c1 ;;
            Py_INCREF Main c2 ;;
            Py_INCREF Main c3 ;;
            d <- load_field thr data ;;
            Py_INCREF Main d ;;
            store_routine thr native_fnptr ;;
            let failed := lo_attr_init env in
            let failed := if bool_decide (failed ≠ 0) then failed else lo_setdetach env in
            created <- (if bool_decide (failed ≠ 0) then ret (failed, 0%N)
                        else pthread_create Main (lo_create env) thr) ;;
            let '(failed, thr_id) := created in
            if bool_decide (failed ≠ 0)
            then free Main thr ;; ret (PyNULL (thread_start_error failed))
            else make_thread_handle Main env thr_id
      end
  end.

(* ================================================================== *)
(** ** The whole system: interleavings of calls and thread steps       *)
(* ================================================================== *)

(** The Python side calls the two module functions; the OS scheduler lets
    spawned threads advance.  Module functions run with the GIL held and
    [handler_exec] takes it, so these are the atomic steps. *)
Inductive Action :=
| ALaunch (env : LaunchOracle) (args : list PyObject)
| AInterrupt (args : list PyObject)
| ATick (tid : pthread_t) (o : TickOracle).

Definition step (a : Action) : M unit :=
  match a with
  | ALaunch env args => (_ <- do_interruptably env args ;; ret tt)
  | AInterrupt args => (_ <- interrupt args ;; ret tt)
  | ATick tid o => tick tid o
  end.

Fixpoint run (acts : list Action) : M unit :=
  match acts with
  | [] => ret tt
  | a :: rest => step a ;; run rest
  end.

(** The events one actor performed, in order. *)
Definition events_of (who : Actor) (tr : list (Actor * Event)) : list Event :=
  map snd (filter (λ x, fst x = who) tr).

(** References to the object at address [a] that the module has taken and
    not yet given back: [Py_INCREF] and the new reference a callback
    returns count up, [Py_DECREF] counts down.  The reference the argument
    tuple holds on its item is the tuple's own ([EvBuildValue],
    [EvDecrefArgs]) and does not count. *)
Definition ref_delta (a : N) (e : Event) : Z :=
  match e with
  | EvIncref o => if bool_decide (ob_addr o = a) then 1 else 0
  | EvDecref o => if bool_decide (ob_addr o = a) then -1 else 0
  | EvCall _ _ (Some o) => if bool_decide (ob_addr o = a) then 1 else 0
  | _ => 0
  end.

Fixpoint retained (a : N) (evs : list Event) : Z :=
  match evs with
  | [] => 0
  | e :: rest => ref_delta a e + retained a rest
  end.

(** Does the value carry the private tag of a thread handle? *)
Definition has_tag (h : PyObject) : bool :=
  match ob_kind h with
  | KCapsule _ (Some n) => bool_decide (n = THREAD_HANDLE_NAME)
  | _ => false
  end.

(** The events [handler_exec] performs on a context holding [ti]. *)
Definition bridge_events (o : TickOracle) (ti : ThreadInfo) (thr : addr)
    (routine : PyObject) : list Event :=
  [EvGILEnsure] ++
  (if to_build_ok o
   then [EvBuildValue [data ti]; EvCall routine [data ti] (to_call_result o);
         EvDecrefArgs [data ti]]
        ++ match to_call_result o with Some r => [EvDecref r] | None => [] end
   else []) ++
  [EvDecref (ok_cbak ti); EvDecref (cancel_cbak ti); EvDecref (err_cbak ti);
   EvDecref (data ti); EvGILRelease; EvFree thr].

Arguments bridge_events : simpl never.
Arguments handler_exec : simpl never.

(** How often the object at address [a] occurs among the four retained
    fields. *)
Definition occurrences (a : N) (ti : ThreadInfo) : Z :=
  Z.of_nat (length (filter (λ o, ob_addr o = a)
                      [ok_cbak ti; cancel_cbak ti; err_cbak ti; data ti])).

(** The block the next successful [malloc] returns, and the identifier of
    the next thread. *)
Definition new_block (w : World) : addr := fresh (dom (heap w)).
Definition new_tid (w : World) : pthread_t := fresh (dom (threads w)).

(** The first non-zero result in the chain of lines 223-225. *)
Definition start_failed (env : LaunchOracle) : Z :=
  if bool_decide (lo_attr_init env ≠ 0) then lo_attr_init env
  else if bool_decide (lo_setdetach env ≠ 0) then lo_setdetach env
  else lo_create env.

Definition all_callable (a1 a2 a3 : PyObject) : bool :=
  PyCallable_Check a1 && PyCallable_Check a2 && PyCallable_Check a3.

(** The world right after a successful [pthread_create] at line 225, for a
    context holding [ti]. *)
Definition started_world (w : World) (ti : ThreadInfo) : World :=
  mkWorld (<[new_block w := BThreadInfo ti]> (heap w))
          (<[new_tid w := initial_thread (new_block w)]> (threads w))
          (trace w ++ map (pair Main)
             [EvMalloc (new_block w); EvIncref (ok_cbak ti); EvIncref (cancel_cbak ti);
              EvIncref (err_cbak ti); EvIncref (data ti);
              EvThreadCreate (new_tid w) (new_block w)]).

(* ================================================================== *)
(** ** The life of one spawned thread                                  *)
(* ================================================================== *)

(** What [nativethread_run_thread] does before it reaches [handler_exec],
    when it is not cancelled. *)
Definition prologue (thr : addr) (fn : Z) : list Event :=
  [EvCleanupPush H_nativethread_cancel_handler thr;
   EvSetCancelState true;
   EvSetCancelType true;
   EvRoutineEnter fn;
   EvRoutineReturn;
   EvSetCancelState false;
   EvCleanupPop false].

(** How many of these events a thread at [pc] has performed. *)
Definition pc_index (pc : PC) : nat :=
  match pc with
  | pc_cleanup_push => 0
  | pc_enable => 1
  | pc_async => 2
  | pc_call_routine => 3
  | pc_in_routine => 4
  | pc_disable => 5
  | pc_cleanup_pop => 6
  | pc_handler_ok => 7
  | pc_exited => 7
  end.

Definition cancelstate_at (pc : PC) : bool :=
  match pc with
  | pc_cleanup_pop | pc_handler_ok => false
  | _ => true
  end.

Definition canceltype_at (pc : PC) : bool :=
  match pc with
  | pc_cleanup_push | pc_enable | pc_async => false
  | _ => true
  end.

Definition cleanup_at (pc : PC) (thr : addr) : list (CleanupHandler * addr) :=
  match pc with
  | pc_cleanup_push | pc_handler_ok | pc_exited => []
  | _ => [(H_nativethread_cancel_handler, thr)]
  end.

(** A thread that has not finished owns its context, has performed the
    prologue up to its program point, and has the cancellation state and
    cleanup stack of that point. *)
Definition running_inv (ti : ThreadInfo) (fn : Z) (w : World) (tid : pthread_t)
    (t : Thread) : Prop :=
  heap w !! th_arg t = Some (BThreadInfo ti) ∧
  events_of (Thr tid) (trace w) = take (pc_index (th_pc t)) (prologue (th_arg t) fn) ∧
  th_cancelstate t = cancelstate_at (th_pc t) ∧
  th_canceltype t = canceltype_at (th_pc t) ∧
  th_cleanup t = cleanup_at (th_pc t) (th_arg t).

(** The two ways a thread ends: it ran the whole prologue and the bridge
    with [ok_cbak], or it was cancelled inside the window (after
    [pthread_setcanceltype], before [PTHREAD_CANCEL_DISABLE] took effect)
    and its cleanup handler ran the bridge with [cancel_cbak]. *)
Definition completed_events (o : TickOracle) (ti : ThreadInfo) (thr : addr)
    (fn : Z) : list Event :=
  prologue thr fn ++ bridge_events o ti thr (ok_cbak ti).

Definition cancelled_events (k : nat) (o : TickOracle) (ti : ThreadInfo)
    (thr : addr) (fn : Z) : list Event :=
  take k (prologue thr fn) ++ EvCancelActed :: bridge_events o ti thr (cancel_cbak ti).

Definition exited_inv (P : TickOracle → Prop) (ti : ThreadInfo) (fn : Z)
    (w : World) (tid : pthread_t) (t : Thread) : Prop :=
  ∃ o, P o ∧
       (events_of (Thr tid) (trace w) = completed_events o ti (th_arg t) fn ∨
        ∃ k, (3 ≤ k ≤ 5)%nat ∧
             events_of (Thr tid) (trace w) = cancelled_events k o ti (th_arg t) fn).

Definition thread_inv (P : TickOracle → Prop) (ti : ThreadInfo) (w : World)
    (tid : pthread_t) (t : Thread) : Prop :=
  ∃ fn, routine ti = Some fn ∧
        if decide (th_pc t = pc_exited) then exited_inv P ti fn w tid t
        else running_inv ti fn w tid t.

(** Worlds the system can be in: every thread of the table is in one of
    the states above, threads that do not exist have done nothing, and two
    unfinished threads never share a context. *)
Definition wf (w : World) : Prop :=
  (∀ tid t, threads w !! tid = Some t → ∃ ti, thread_inv (λ _, True) ti w tid t) ∧
  (∀ tid, threads w !! tid = None → events_of (Thr tid) (trace w) = []) ∧
  (∀ tid1 tid2 t1 t2,
     threads w !! tid1 = Some t1 → threads w !! tid2 = Some t2 →
     th_pc t1 ≠ pc_exited → th_pc t2 ≠ pc_exited →
     th_arg t1 = th_arg t2 → tid1 = tid2).

(** All entries of a piece of trace are by one actor. *)
Definition only_by (who : Actor) (tr : list (Actor * Event)) : Prop :=
  Forall (λ x, fst x = who) tr.

(** What one step of thread [tid] may do to the world: it rewrites its own
    entry of the thread table, appends events of its own, keeps its
    invariant, and frees its context exactly when it ends. *)
Definition own_step_post (P : TickOracle → Prop) (ti : ThreadInfo)
    (tid : pthread_t) (w : World) (t : Thread) (w' : World) : Prop :=
  ∃ t' tr',
    threads w' = <[tid := t']> (threads w) ∧
    th_arg t' = th_arg t ∧
    (th_pc t = pc_exited → th_pc t' = pc_exited) ∧
    trace w' = trace w ++ tr' ∧ only_by (Thr tid) tr' ∧
    thread_inv P ti w' tid t' ∧
    ((heap w' = heap w ∧ (th_pc t' = pc_exited → th_pc t = pc_exited)) ∨
     (heap w' = delete (th_arg t) (heap w) ∧ th_pc t ≠ pc_exited ∧
      th_pc t' = pc_exited)).

(** Two states of a thread that differ at most in that a cancellation
    request has become pending. *)
Definition same_but_pending (t t' : Thread) : Prop :=
  th_arg t' = th_arg t ∧ th_pc t' = th_pc t ∧
  th_cancelstate t' = th_cancelstate t ∧ th_canceltype t' = th_canceltype t ∧
  th_cleanup t' = th_cleanup t ∧
  (th_pending t = true → th_pending t' = true).

(** What a call of a module function may do to the world: it appends
    events of the calling thread, leaves every allocated block as it is,
    changes of an existing thread at most the pending flag, and adds at
    most one thread, in its initial state and with a complete context. *)
Definition main_step_post (w w' : World) : Prop :=
  (∃ tr', trace w' = trace w ++ tr' ∧ only_by Main tr') ∧
  (∀ q b, heap w !! q = Some b → heap w' !! q = Some b) ∧
  (∀ tid t, threads w !! tid = Some t →
            ∃ t', threads w' !! tid = Some t' ∧ same_but_pending t t') ∧
  (∀ tid t', threads w !! tid = None → threads w' !! tid = Some t' →
             tid = new_tid w ∧ t' = initial_thread (new_block w) ∧
             ∃ ti fn, heap w' !! new_block w = Some (BThreadInfo ti) ∧
                      routine ti = Some fn).

(** The callback invocations among some events: callee and arguments. *)
Definition calls_in (evs : list Event) : list (PyObject * list PyObject) :=
  flat_map (λ e, match e with EvCall f a _ => [(f, a)] | _ => [] end) evs.

(** The blocks freed among some events. *)
Definition frees_in (evs : list Event) : list addr :=
  flat_map (λ e, match e with EvFree p => [p] | _ => [] end) evs.

(** The releases with which [handler_exec] ends (lines 81-90). *)
Definition release_events (ti : ThreadInfo) (thr : addr) : list Event :=
  [EvDecref (ok_cbak ti); EvDecref (cancel_cbak ti); EvDecref (err_cbak ti);
   EvDecref (data ti); EvGILRelease; EvFree thr].

(** The context [do_interruptably] builds from its arguments. *)
Definition launched_info (v : Z) (a1 a2 a3 a4 : PyObject) : ThreadInfo :=
  mkThreadInfo a1 a2 a3 a4 (Some v).

(* ================================================================== *)
(** ** Sample inputs                                                   *)
(* ================================================================== *)

(** A call [do_interruptably(4096, f2, f3, f4, x)] in which everything the
    system decides goes well. *)
Definition sample_env : LaunchOracle := mkLaunchOracle true 0 0 0 true (Some 50%N).

Definition sample_args : list PyObject :=
  [mkObj 1 (KLong 4096); mkObj 2 KCallable; mkObj 3 KCallable; mkObj 4 KCallable;
   mkObj 9 KOther].

(** The routine returns at once, the tuple is built, the callback returns
    [None]. *)
Definition sample_tick : TickOracle := mkTickOracle true true (Some Py_None).

(** The same, but [Py_BuildValue] cannot allocate the tuple. *)
Definition sample_tick_nobuild : TickOracle := mkTickOracle true false (Some Py_None).

(** The handle the sample launch returns. *)
Definition sample_handle : PyObject :=
  mkObj 50 (KCapsule 2%positive (Some THREAD_HANDLE_NAME)).

(** The world after the sample launch and [n] steps of its thread. *)
Definition sample_world (o : TickOracle) (n : nat) : World :=
  match (do_interruptably sample_env sample_args ;;
         run (replicate n (ATick 0%N o))) empty_world with
  | Some (_, w) => w
  | None => empty_world
  end.


(** An upper bound on the steps a thread still takes once its routine
    returns whenever it is given a step. *)
Definition remaining (pc : PC) : nat :=
  match pc with
  | pc_cleanup_push => 8
  | pc_enable => 7
  | pc_async => 6
  | pc_call_routine => 5
  | pc_in_routine => 4
  | pc_disable => 3
  | pc_cleanup_pop => 2
  | pc_handler_ok => 1
  | pc_exited => 0
  end.

(** The use the module is made for: [interrupt] is given, if it is given
    a tagged capsule at all, the handle of a thread that has not ended.
    The capsule's record is allocated and names a thread of the table that
    is still running. *)
Definition targets_live_thread (w : World) (a : Action) : bool :=
  match a with
  | AInterrupt [h] =>
      match PyCapsule_GetPointer h THREAD_HANDLE_NAME with
      | inl p =>
          match heap w !! p with
          | Some (BThreadId id) =>
              match threads w !! id with
              | Some t => bool_decide (th_pc t ≠ pc_exited)
              | None => false
              end
          | _ => false
          end
      | inr _ => true
      end
  | _ => true
  end.

(** The same for every action of a schedule, each in the world it is taken
    in.  Whether a step goes wrong is not part of the condition: the check
    ends there. *)
Fixpoint interrupts_target_live (acts : list Action) (w : World) : bool :=
  match acts with
  | [] => true
  | a :: rest =>
      targets_live_thread w a &&
      match step a w with
      | Some (_, w1) => interrupts_target_live rest w1
      | None => true
      end
  end.

(** The thread has executed [pthread_setcancelstate(PTHREAD_CANCEL_DISABLE)]
    without having been cancelled: it is at line 118 or 121, or it has
    ended after running the bridge with [ok_cbak]. *)
Definition past_disable (ti : ThreadInfo) (w : World) (tid : pthread_t)
    (t : Thread) : Prop :=
  if decide (th_pc t = pc_exited)
  then ∃ o fn, routine ti = Some fn ∧
               events_of (Thr tid) (trace w) = completed_events o ti (th_arg t) fn
  else (6 ≤ pc_index (th_pc t))%nat.

(** Events that read or write Python objects, and the two GIL events. *)
Definition touches_python (e : Event) : bool :=
  match e with
  | EvIncref _ | EvDecref _ | EvBuildValue _ | EvDecrefArgs _ | EvCall _ _ _ => true
  | _ => false
  end.

Definition is_gil (e : Event) : bool :=
  match e with
  | EvGILEnsure | EvGILRelease => true
  | _ => false
  end.

(** The GIL discipline on the events of one thread: [PyGILState_Ensure]
    and [PyGILState_Release] alternate, Python objects are touched only
    while the GIL is [held], and the GIL is not held at the end. *)
Fixpoint gil_guarded (held : bool) (evs : list Event) : bool :=
  match evs with
  | [] => negb held
  | EvGILEnsure :: rest => negb held && gil_guarded true rest
  | EvGILRelease :: rest => held && gil_guarded false rest
  | e :: rest => (held || negb (touches_python e)) && gil_guarded held rest
  end.

(* ================================================================== *)
(** ** Basic facts                                                     *)
(* ================================================================== *)

Lemma events_of_app who tr1 tr2 :
  events_of who (tr1 ++ tr2) = events_of who tr1 ++ events_of who tr2.
Proof. unfold events_of. by rewrite filter_app, map_app. Qed.

Lemma events_of_same who evs :
  events_of who (map (pair who) evs) = evs.
Proof.
  unfold events_of. induction evs as [|e evs IH]; [done|].
  simpl. rewrite filter_cons_True by done. simpl. by f_equal.
Qed.

Lemma events_of_other who who' evs :
  who ≠ who' → events_of who (map (pair who') evs) = [].
Proof.
  intros Hne. unfold events_of. induction evs as [|e evs IH]; [done|].
  simpl. rewrite filter_cons_False by (simpl; congruence). done.
Qed.

Lemma retained_app a evs1 evs2 :
  retained a (evs1 ++ evs2) = retained a evs1 + retained a evs2.
Proof. induction evs1 as [|e evs1 IH]; simpl; [done | rewrite IH; lia]. Qed.

(** [handler_exec] on a live context: it cannot go wrong, and this is all
    it does. *)
Lemma handler_exec_spec who o thr routine w ti :
  heap w !! thr = Some (BThreadInfo ti) →
  handler_exec who o thr routine w =
    Some (tt, mkWorld (delete thr (heap w)) (threads w)
                      (trace w ++ map (pair who) (bridge_events o ti thr routine))).
Proof.
  intros Hthr.
  unfold handler_exec, bridge_events, load_field, load_info, Py_BuildValue_O,
    PyObject_CallObject, Py_DECREF, free, emit, bind, ret.
  destruct o as [rr [|] [r|]]; simpl;
    repeat (rewrite Hthr; simpl);
    repeat (rewrite <- app_assoc; simpl); reflexivity.
Qed.

(* ================================================================== *)
(** ** [interrupt]                                                     *)
(* ================================================================== *)

Lemma has_tag_true h :
  has_tag h = true ↔ ∃ p, ob_kind h = KCapsule p (Some THREAD_HANDLE_NAME).
Proof.
  unfold has_tag. split.
  - destruct (ob_kind h) as [| |p [n|]| | |]; try discriminate.
    intros Hn. apply bool_decide_eq_true in Hn. subst. eauto.
  - intros [p ->]. by apply bool_decide_eq_true.
Qed.

Lemma pthread_cancel_heap who tid w rc w' :
  pthread_cancel who tid w = Some (rc, w') → heap w' = heap w.
Proof.
  unfold pthread_cancel. intros H.
  destruct (threads w !! tid) as [t|]; [case_bool_decide|]; by simplify_eq.
Qed.

Lemma pthread_cancel_rejected who tid w rc w' :
  pthread_cancel who tid w = Some (rc, w') → rc ≠ 0 →
  threads w' = threads w ∧ rc = ESRCH.
Proof.
  unfold pthread_cancel. intros H Hrc.
  destruct (threads w !! tid) as [t|]; [case_bool_decide|]; by simplify_eq.
Qed.

(** The C heap is the same after [interrupt] as before, whatever it
    returns. *)
Lemma interrupt_heap args w r w' :
  interrupt args w = Some (r, w') → heap w' = heap w.
Proof.
  unfold interrupt. intros H.
  destruct (PyArg_ParseTuple_O args) as [h|e]; [|by inversion H].
  destruct (negb (PyCapsule_CheckExact h)); [by inversion H|].
  destruct (PyCapsule_GetPointer h THREAD_HANDLE_NAME) as [p|e]; [|by inversion H].
  unfold bind, load_tid in H.
  destruct (heap w !! p) as [[| |id]|]; try discriminate.
  destruct (pthread_cancel Main id w) as [[rc w1]|] eqn:Hc; [|discriminate].
  apply pthread_cancel_heap in Hc.
  case_bool_decide; unfold Py_INCREF, emit, ret in H; simpl in H; by simplify_eq.
Qed.

(** C3, as amended: a value without the private tag never reaches
    [pthread_cancel]; [interrupt] returns [NULL] and leaves the world as it
    was.  The exception is [TypeError] for a value that is not a capsule
    and [ValueError] (raised by [PyCapsule_GetPointer]) for a capsule with
    another name. *)
Theorem interrupt_rejects_untagged (h : PyObject) (w : World) :
  has_tag h = false →
  ∃ e, interrupt [h] w = Some (PyNULL e, w) ∧
       err_type e = (if PyCapsule_CheckExact h then PyExc_ValueError
                     else PyExc_TypeError).
Proof.
  unfold has_tag, interrupt, PyCapsule_CheckExact, PyCapsule_GetPointer. simpl.
  destruct (ob_kind h) as [v| |p [n|]| | |r]; simpl; intros Htag; eauto.
  rewrite Htag. eauto.
Qed.

Lemma interrupt_rejects_untagged_witness :
  ∃ e, interrupt [mkObj 7 (KLong 42)] empty_world = Some (PyNULL e, empty_world) ∧
       err_type e = PyExc_TypeError.
Proof.
  apply (interrupt_rejects_untagged (mkObj 7 (KLong 42)) empty_world).
  reflexivity.
Defined.

(** C3 as stated fails: a capsule named otherwise gets [ValueError], not
    [TypeError]. *)
Lemma interrupt_mismatched_tag_counterexample :
  has_tag (mkObj 7 (KCapsule 1%positive (Some "other.handle"%string))) = false ∧
  interrupt [mkObj 7 (KCapsule 1%positive (Some "other.handle"%string))] empty_world
    = Some (PyNULL (mkErr PyExc_ValueError
                      "PyCapsule_GetPointer called with incorrect name"),
            empty_world) ∧
  ¬ (∃ e, interrupt [mkObj 7 (KCapsule 1%positive (Some "other.handle"%string))]
            empty_world = Some (PyNULL e, empty_world) ∧
          err_type e = PyExc_TypeError).
Proof.
  split; [reflexivity|]. split; [reflexivity|].
  intros [e [He Ht]]. vm_compute in He. inversion He; subst. discriminate.
Qed.

(** C7: when the OS rejects the identifier of a well-tagged handle,
    [interrupt] raises [SystemError] with the "no such thread" message, not
    a type error; and no call of [interrupt], successful or not, frees or
    changes any block of the C heap, where thread contexts and handle
    records live. *)
Theorem interrupt_no_such_thread :
  (∀ args w r w', interrupt args w = Some (r, w') → heap w' = heap w) ∧
  (∀ h p id w rc w1,
     ob_kind h = KCapsule p (Some THREAD_HANDLE_NAME) →
     heap w !! p = Some (BThreadId id) →
     pthread_cancel Main id w = Some (rc, w1) →
     rc ≠ 0 →
     ∃ e w', interrupt [h] w = Some (PyNULL e, w') ∧
             e = mkErr PyExc_SystemError
                   "thread could not be cancelled (no such thread)" ∧
             err_type e ≠ PyExc_TypeError ∧
             heap w' = heap w ∧ threads w' = threads w).
Proof.
  split; [apply interrupt_heap|].
  intros h p id w rc w1 Hk Hp Hc Hrc.
  destruct (pthread_cancel_rejected _ _ _ _ _ Hc Hrc) as [Hth ->].
  pose proof (pthread_cancel_heap _ _ _ _ _ Hc) as Hh.
  unfold interrupt, PyCapsule_CheckExact, PyCapsule_GetPointer. simpl.
  rewrite Hk. simpl.
  unfold bind, load_tid. rewrite Hp, Hc.
  rewrite bool_decide_eq_true_2 by done.
  eexists _, _. repeat split; try done.
Qed.

Lemma interrupt_no_such_thread_witness :
  heap (mkWorld {[1%positive := BThreadId 5%N]} ∅ [(Main, EvPthreadCancel 5%N ESRCH)])
    = heap (mkWorld {[1%positive := BThreadId 5%N]} ∅ []) ∧
  ∃ e w', interrupt [mkObj 7 (KCapsule 1%positive (Some THREAD_HANDLE_NAME))]
            (mkWorld {[1%positive := BThreadId 5%N]} ∅ []) = Some (PyNULL e, w') ∧
          e = mkErr PyExc_SystemError
                "thread could not be cancelled (no such thread)" ∧
          err_type e ≠ PyExc_TypeError ∧
          heap w' = heap (mkWorld {[1%positive := BThreadId 5%N]} ∅ []) ∧
          threads w' = threads (mkWorld {[1%positive := BThreadId 5%N]} ∅ []).
Proof.
  split.
  - apply (proj1 interrupt_no_such_thread
             [mkObj 7 (KCapsule 1%positive (Some THREAD_HANDLE_NAME))]
             (mkWorld {[1%positive := BThreadId 5%N]} ∅ [])
             (PyNULL (mkErr PyExc_SystemError
                        "thread could not be cancelled (no such thread)"))
             (mkWorld {[1%positive := BThreadId 5%N]} ∅
                      [(Main, EvPthreadCancel 5%N ESRCH)])).
    reflexivity.
  - apply (proj2 interrupt_no_such_thread
             (mkObj 7 (KCapsule 1%positive (Some THREAD_HANDLE_NAME)))
             1%positive 5%N
             (mkWorld {[1%positive := BThreadId 5%N]} ∅ [])
             ESRCH
             (mkWorld {[1%positive := BThreadId 5%N]} ∅
                      [(Main, EvPthreadCancel 5%N ESRCH)])).
    + reflexivity.
    + reflexivity.
    + reflexivity.
    + unfold ESRCH. lia.
Defined.

(* ================================================================== *)
(** ** [do_interruptably]                                              *)
(* ================================================================== *)

Lemma new_block_fresh w : heap w !! new_block w = None.
Proof. unfold new_block. apply not_elem_of_dom. apply is_fresh. Qed.

Lemma new_tid_fresh w : threads w !! new_tid w = None.
Proof. unfold new_tid. apply not_elem_of_dom. apply is_fresh. Qed.

Ltac run_monad :=
  unfold do_interruptably, make_thread_handle, store_routine, pthread_create,
    load_field, load_info, store, malloc, free, Py_INCREF, emit, bind, ret;
  fold new_block; fold new_tid; simpl;
  repeat (rewrite ?lookup_insert_eq, ?insert_insert_eq; simpl).

(** Allocation of the context fails: nothing has happened. *)
Lemma launch_no_memory env args w :
  lo_malloc_info env = false →
  do_interruptably env args w = Some (PyErr_NoMemory, w).
Proof. intros H. unfold do_interruptably, malloc, bind, ret. by rewrite H. Qed.

(** Argument parsing fails: the context is freed again. *)
Lemma launch_parse_error env args w e :
  lo_malloc_info env = true →
  PyArg_ParseTuple_LOOOO args = inr e →
  do_interruptably env args w =
    Some (PyNULL e,
          mkWorld (heap w) (threads w)
            (trace w ++ map (pair Main) [EvMalloc (new_block w); EvFree (new_block w)])).
Proof.
  intros Hm Hp. run_monad. rewrite Hm, Hp. run_monad.
  rewrite delete_insert_id by apply new_block_fresh.
  by rewrite <- app_assoc.
Qed.

(** One of the callbacks is not callable: the context is freed again. *)
Lemma launch_not_callable env args w fn a1 a2 a3 a4 :
  lo_malloc_info env = true →
  PyArg_ParseTuple_LOOOO args = inl (fn, a1, a2, a3, a4) →
  all_callable a1 a2 a3 = false →
  do_interruptably env args w =
    Some (PyNULL (mkErr PyExc_TypeError "arguments 2, 3, and 4 must be callable"),
          mkWorld (heap w) (threads w)
            (trace w ++ map (pair Main) [EvMalloc (new_block w); EvFree (new_block w)])).
Proof.
  intros Hm Hp Hc. run_monad. rewrite Hm, Hp. run_monad.
  unfold all_callable in Hc. rewrite Hc. run_monad.
  rewrite delete_insert_id by apply new_block_fresh.
  by rewrite <- app_assoc.
Qed.

(** The thread cannot be started: the context is freed, the four
    references taken at lines 216-219 are not given back. *)
Lemma launch_start_failed env args w fn a1 a2 a3 a4 :
  lo_malloc_info env = true →
  PyArg_ParseTuple_LOOOO args = inl (fn, a1, a2, a3, a4) →
  all_callable a1 a2 a3 = true →
  start_failed env ≠ 0 →
  do_interruptably env args w =
    Some (PyNULL (thread_start_error (start_failed env)),
          mkWorld (heap w) (threads w)
            (trace w ++ map (pair Main)
               [EvMalloc (new_block w); EvIncref a1; EvIncref a2; EvIncref a3;
                EvIncref a4; EvFree (new_block w)])).
Proof.
  intros Hm Hp Hc Hf. run_monad. rewrite Hm, Hp. run_monad.
  unfold all_callable in Hc. rewrite Hc. run_monad.
  unfold start_failed in Hf |- *.
  repeat case_bool_decide; try done; run_monad;
    rewrite ?bool_decide_eq_true_2 by done; run_monad;
    rewrite delete_insert_id by apply new_block_fresh;
    repeat (rewrite <- app_assoc; simpl); try done.
Qed.

(** The thread is started: what remains is [make_thread_handle]. *)
Lemma launch_started env args w fn a1 a2 a3 a4 :
  lo_malloc_info env = true →
  PyArg_ParseTuple_LOOOO args = inl (fn, a1, a2, a3, a4) →
  all_callable a1 a2 a3 = true →
  start_failed env = 0 →
  do_interruptably env args w =
    make_thread_handle Main env (new_tid w)
      (started_world w (mkThreadInfo a1 a2 a3 a4 (Some fn))).
Proof.
  intros Hm Hp Hc Hf. run_monad. rewrite Hm, Hp. run_monad.
  unfold all_callable in Hc. rewrite Hc. run_monad.
  unfold start_failed in Hf.
  repeat case_bool_decide; try done; run_monad.
  unfold started_world, new_block, new_tid.
  destruct (lo_malloc_handle env); simpl;
    repeat (rewrite <- app_assoc; simpl); done.
Qed.

Lemma make_thread_handle_spec who env id w :
  make_thread_handle who env id w =
    if lo_malloc_handle env
    then Some (PyCapsule_New (new_block w) THREAD_HANDLE_NAME (lo_capsule env),
               mkWorld (<[new_block w := BThreadId id]> (heap w)) (threads w)
                       (trace w ++ [(who, EvMalloc (new_block w))]))
    else Some (PyErr_NoMemory, w).
Proof. run_monad. destruct (lo_malloc_handle env); run_monad; done. Qed.

(** [do_interruptably] never runs into undefined behaviour. *)
Lemma launch_total env args w :
  ∃ r w', do_interruptably env args w = Some (r, w').
Proof.
  destruct (lo_malloc_info env) eqn:Hm;
    [|rewrite launch_no_memory by done; eauto].
  destruct (PyArg_ParseTuple_LOOOO args) as [[[[[fn a1] a2] a3] a4]|e] eqn:Hp;
    [|erewrite launch_parse_error by done; eauto].
  destruct (all_callable a1 a2 a3) eqn:Hc;
    [|erewrite launch_not_callable by done; eauto].
  destruct (decide (start_failed env = 0)) as [Hf|Hf];
    [|erewrite launch_start_failed by done; eauto].
  erewrite launch_started by done. rewrite make_thread_handle_spec.
  destruct (lo_malloc_handle env); eauto.
Qed.

Lemma PyLong_AsLongLong_range o v :
  PyLong_AsLongLong o = inl v → LLONG_MIN ≤ v ≤ LLONG_MAX.
Proof.
  unfold PyLong_AsLongLong. destruct (PyNumber_Index o) as [v'|e]; [|done].
  intros Heq. case_bool_decide; by simplify_eq.
Qed.

Lemma PyLong_AsLongLong_int a v :
  LLONG_MIN ≤ v ≤ LLONG_MAX → PyLong_AsLongLong (mkObj a (KLong v)) = inl v.
Proof. intros H. unfold PyLong_AsLongLong. simpl. by rewrite bool_decide_eq_true_2. Qed.

(** The errors of the conversion, by the kind of the object. *)
Lemma PyLong_AsLongLong_error o e :
  PyLong_AsLongLong o = inr e →
  match ob_kind o with
  | KLong v => ¬ (LLONG_MIN ≤ v ≤ LLONG_MAX) ∧ err_type e = PyExc_OverflowError
  | KIndex (inl v) => ¬ (LLONG_MIN ≤ v ≤ LLONG_MAX) ∧ err_type e = PyExc_OverflowError
  | KIndex (inr e') => e = e'
  | _ => err_type e = PyExc_TypeError
  end.
Proof.
  unfold PyLong_AsLongLong, PyNumber_Index.
  destruct (ob_kind o) as [v| | | | |[v|e']]; simpl; intros Heq;
    try case_bool_decide; by simplify_eq.
Qed.

Lemma parse_first_rejected fn rest e :
  PyLong_AsLongLong fn = inr e →
  ∃ e', PyArg_ParseTuple_LOOOO (fn :: rest) = inr e' ∧
        (length rest = 4%nat → e' = e) ∧
        (length rest ≠ 4%nat → err_type e' = PyExc_TypeError).
Proof.
  unfold PyArg_ParseTuple_LOOOO. intros H.
  destruct rest as [|a1 [|a2 [|a3 [|a4 [|a5 rest]]]]]; simpl;
    try (eexists; split; [reflexivity|]; split; [done|reflexivity]).
  rewrite H. eexists. split; [reflexivity|]. split; done.
Qed.

Lemma parse_accepted a v a1 a2 a3 a4 :
  LLONG_MIN ≤ v ≤ LLONG_MAX →
  PyArg_ParseTuple_LOOOO [mkObj a (KLong v); a1; a2; a3; a4] = inl (v, a1, a2, a3, a4).
Proof.
  intros H. unfold PyArg_ParseTuple_LOOOO. by rewrite PyLong_AsLongLong_int.
Qed.

Lemma parse_five fn a1 a2 a3 a4 :
  PyArg_ParseTuple_LOOOO [fn; a1; a2; a3; a4] =
    match PyLong_AsLongLong fn with
    | inl v => inl (v, a1, a2, a3, a4)
    | inr e => inr e
    end.
Proof. reflexivity. Qed.

(** C6, as amended: when one of the three callbacks is not callable,
    [do_interruptably] returns [NULL] with an error set, having only
    allocated and freed the context: the heap and the thread table are as
    before, no reference was taken and no thread was created.  The error
    is the [TypeError] of line 210 whenever the first argument converts
    under format [L]: an [int], or an object whose [__index__] returns
    one, within [long long].  When it does not, the error is the one of
    that conversion, which comes first (lines 195-204): [OverflowError]
    for a value outside [long long], the exception of an [__index__] that
    raises, [TypeError] for an object with neither. *)
Theorem launch_rejects_non_callable
    (env : LaunchOracle) (fn a1 a2 a3 a4 : PyObject) (w : World) :
  lo_malloc_info env = true →
  all_callable a1 a2 a3 = false →
  ∃ e w',
    do_interruptably env [fn; a1; a2; a3; a4] w = Some (PyNULL e, w') ∧
    trace w' = trace w ++ [(Main, EvMalloc (new_block w)); (Main, EvFree (new_block w))] ∧
    heap w' = heap w ∧
    threads w' = threads w ∧
    match ob_kind fn with
    | KLong v | KIndex (inl v) =>
        if bool_decide (LLONG_MIN ≤ v ≤ LLONG_MAX)
        then e = mkErr PyExc_TypeError "arguments 2, 3, and 4 must be callable"
        else err_type e = PyExc_OverflowError
    | KIndex (inr e') => e = e'
    | _ => err_type e = PyExc_TypeError
    end.
Proof.
  intros Hm Hc.
  pose proof (parse_five fn a1 a2 a3 a4) as Hp.
  destruct (PyLong_AsLongLong fn) as [v|e] eqn:Hfn.
  - erewrite launch_not_callable by done.
    eexists _, _. split; [done|]. simpl. do 3 (split; [done|]).
    unfold PyLong_AsLongLong, PyNumber_Index in Hfn.
    destruct (ob_kind fn) as [v'| | | | |[v'|e']]; try done;
      by case_bool_decide.
  - erewrite launch_parse_error by done.
    eexists _, _. split; [done|]. simpl. do 3 (split; [done|]).
    apply PyLong_AsLongLong_error in Hfn.
    destruct (ob_kind fn) as [v'| | | | |[v'|e']]; try done;
      destruct Hfn as [Hv He]; by rewrite bool_decide_eq_false_2.
Qed.

Lemma launch_rejects_non_callable_witness :
  ∃ e w',
    do_interruptably (mkLaunchOracle true 0 0 0 true (Some 50%N))
      [mkObj 1 (KLong 4096); mkObj 2 KCallable; mkObj 3 (KLong 7);
       mkObj 4 KCallable; mkObj 9 KOther] empty_world = Some (PyNULL e, w') ∧
    trace w' = trace empty_world ++
                 [(Main, EvMalloc (new_block empty_world));
                  (Main, EvFree (new_block empty_world))] ∧
    heap w' = heap empty_world ∧
    threads w' = threads empty_world ∧
    match ob_kind (mkObj 1 (KLong 4096)) with
    | KLong v | KIndex (inl v) =>
        if bool_decide (LLONG_MIN ≤ v ≤ LLONG_MAX)
        then e = mkErr PyExc_TypeError "arguments 2, 3, and 4 must be callable"
        else err_type e = PyExc_OverflowError
    | KIndex (inr e') => e = e'
    | _ => err_type e = PyExc_TypeError
    end.
Proof.
  apply (launch_rejects_non_callable (mkLaunchOracle true 0 0 0 true (Some 50%N))
           (mkObj 1 (KLong 4096)) (mkObj 2 KCallable) (mkObj 3 (KLong 7))
           (mkObj 4 KCallable) (mkObj 9 KOther) empty_world).
  - reflexivity.
  - reflexivity.
Defined.

(** C6 as stated fails: with a non-callable third argument and a first
    argument that does not convert, the error is that of the conversion,
    not a [TypeError]: [OverflowError] for [2^63], and [RuntimeError] for
    an object whose [__index__] raises it. *)
Lemma non_callable_other_error_counterexample :
  all_callable (mkObj 2 KCallable) (mkObj 3 (KLong 7)) (mkObj 4 KCallable) = false ∧
  (∃ e,
     do_interruptably (mkLaunchOracle true 0 0 0 true (Some 50%N))
       [mkObj 1 (KLong (2 ^ 63)); mkObj 2 KCallable; mkObj 3 (KLong 7);
        mkObj 4 KCallable; mkObj 9 KOther] empty_world
     = Some (PyNULL e,
             mkWorld ∅ ∅ [(Main, EvMalloc 1%positive); (Main, EvFree 1%positive)]) ∧
     err_type e = PyExc_OverflowError) ∧
  do_interruptably (mkLaunchOracle true 0 0 0 true (Some 50%N))
    [mkObj 1 (KIndex (inr (mkErr (PyExc_Other "RuntimeError") "boom")));
     mkObj 2 KCallable; mkObj 3 (KLong 7); mkObj 4 KCallable; mkObj 9 KOther]
    empty_world
  = Some (PyNULL (mkErr (PyExc_Other "RuntimeError") "boom"),
          mkWorld ∅ ∅ [(Main, EvMalloc 1%positive); (Main, EvFree 1%positive)]) ∧
  ¬ (∃ e w',
       do_interruptably (mkLaunchOracle true 0 0 0 true (Some 50%N))
         [mkObj 1 (KLong (2 ^ 63)); mkObj 2 KCallable; mkObj 3 (KLong 7);
          mkObj 4 KCallable; mkObj 9 KOther] empty_world = Some (PyNULL e, w') ∧
       err_type e = PyExc_TypeError).
Proof.
  split; [reflexivity|].
  split; [eexists; split; [vm_compute; reflexivity|reflexivity]|].
  split; [vm_compute; reflexivity|].
  intros (e & w' & He & Ht). vm_compute in He. inversion He; subst. discriminate.
Qed.

(* ================================================================== *)
(** ** One thread, one step                                            *)
(* ================================================================== *)

Lemma events_of_snoc_same who tr evs :
  events_of who (tr ++ map (pair who) evs) = events_of who tr ++ evs.
Proof. by rewrite events_of_app, events_of_same. Qed.

Lemma events_of_snoc_other who who' tr evs :
  who ≠ who' → events_of who (tr ++ map (pair who') evs) = events_of who tr.
Proof. intros. rewrite events_of_app, events_of_other by done. apply app_nil_r. Qed.

Lemma events_of_cons_same who e tr :
  events_of who ((who, e) :: tr) = e :: events_of who tr.
Proof. unfold events_of. by rewrite filter_cons_True. Qed.

Lemma events_of_cons_other who who' e tr :
  who ≠ who' → events_of who ((who', e) :: tr) = events_of who tr.
Proof. intros. unfold events_of. rewrite filter_cons_False; [done|simpl; congruence]. Qed.

Lemma events_of_only_by who who' tr tr' :
  only_by who' tr' → who ≠ who' → events_of who (tr ++ tr') = events_of who tr.
Proof.
  intros Hby Hne. rewrite events_of_app.
  replace (events_of who tr') with (@nil Event); [by rewrite app_nil_r|].
  induction Hby as [|[a e] tr' Ha _ IH]; [done|].
  simpl in Ha. subst a. by rewrite events_of_cons_other.
Qed.

Lemma only_by_map who evs : only_by who (map (pair who) evs).
Proof. unfold only_by. induction evs; simpl; constructor; done. Qed.

Lemma only_by_cons who e tr : only_by who tr → only_by who ((who, e) :: tr).
Proof. intros. by constructor. Qed.

Lemma only_by_nil who : only_by who [].
Proof. constructor. Qed.

Lemma only_by_app who tr1 tr2 :
  only_by who tr1 → only_by who tr2 → only_by who (tr1 ++ tr2).
Proof. intros. by apply Forall_app. Qed.

Create HintDb trace_db.
#[local] Hint Resolve only_by_map only_by_cons only_by_nil only_by_app : trace_db.

Ltac thread_step_tac Hheap :=
  unfold nativethread_run_thread_step, act_on_cancel, run_cleanup, exec_cleanup,
    nativethread_cancel_handler, set_thread, at_pc, load_field, load_info,
    emit, bind, ret, undefined; simpl;
  repeat (rewrite ?Hheap; simpl).

Lemma events_of_nil who : events_of who [] = [].
Proof. done. Qed.

Ltac events_tac Hev :=
  cbn [trace];
  repeat (rewrite events_of_app || rewrite events_of_cons_same
          || rewrite events_of_same || rewrite events_of_nil);
  rewrite ?Hev; simpl; unfold completed_events, cancelled_events; simpl.

Opaque bridge_events.

(** A step of a thread that satisfies its invariant is defined and has the
    effect [own_step_post]. *)
Lemma tick_own (P : TickOracle → Prop) tid o w t ti :
  P o →
  threads w !! tid = Some t →
  thread_inv P ti w tid t →
  ∃ w', tick tid o w = Some (tt, w') ∧ own_step_post P ti tid w t w'.
Proof.
  intros HP Ht (fn & Hfn & Hinv).
  destruct t as [p pc cs ct pend cl]. simpl in *.
  unfold tick. rewrite Ht. simpl.
  destruct (decide (pc = pc_exited)) as [->|Hpc].
  { simpl. exists w. split; [done|].
    exists (mkThread p pc_exited cs ct pend cl), [].
    split_and!; simpl; try done.
    - by rewrite insert_id.
    - by rewrite app_nil_r.
    - constructor.
    - exists fn. split; [done|]. simpl. done.
    - by left. }
  destruct Hinv as (Hheap & Hev & Hcs & Hct & Hcl). simpl in *.
  rewrite bool_decide_eq_false_2 by done.
  unfold cancellable. simpl. subst cs ct cl.
  destruct pend, pc; simpl; try done;
    thread_step_tac Hheap; rewrite ?Hfn; simpl;
    try (rewrite (handler_exec_spec _ _ _ _ _ ti) by done; simpl);
    try match goal with
        | |- context [to_routine_returns ?x] => destruct (to_routine_returns x); simpl
        end;
    (eexists; split; [reflexivity|]); simpl;
    unfold own_step_post; simpl; rewrite <- ?app_assoc; simpl;
    first
      [ eexists _, _; split; [reflexivity|]; split; [reflexivity|];
        split; [done|];
        split; [reflexivity|]; split; [solve [eauto 10 with trace_db]|]
      | eexists (mkThread p pc_in_routine true true _
                   [(H_nativethread_cancel_handler, p)]), [];
        split; [by rewrite insert_id|]; split; [done|]; split; [done|];
        split; [by rewrite app_nil_r|]; split; [apply only_by_nil|] ];
    (split; [|solve [left; done] || solve [right; done]]);
    (exists fn; split; [done|]; simpl);
    try (unfold running_inv; simpl; split_and!; try done; events_tac Hev; done);
    exists o; (split; [done|]);
    try (left; events_tac Hev; done);
    right;
    [ exists 3%nat | exists 4%nat | exists 5%nat ];
    (split; [lia|]); events_tac Hev; done.
Qed.

Transparent bridge_events.

(* ================================================================== *)
(** ** Effect of the module functions on the world                     *)
(* ================================================================== *)

Lemma same_but_pending_refl t : same_but_pending t t.
Proof. by unfold same_but_pending. Qed.

Lemma main_step_post_refl w : main_step_post w w.
Proof.
  split_and!.
  - exists []. split; [by rewrite app_nil_r | apply only_by_nil].
  - done.
  - intros tid t Ht. eauto using same_but_pending_refl.
  - intros tid t' H1 H2. congruence.
Qed.

(** A step that only appends events of the calling thread. *)
Lemma main_step_post_trace w evs :
  main_step_post w (mkWorld (heap w) (threads w) (trace w ++ map (pair Main) evs)).
Proof.
  split_and!; simpl.
  - eexists. split; [done | apply only_by_map].
  - done.
  - intros tid t Ht. eauto using same_but_pending_refl.
  - intros tid t' H1 H2. congruence.
Qed.

Lemma pthread_cancel_post tid w rc w' :
  pthread_cancel Main tid w = Some (rc, w') →
  heap w' = heap w ∧
  trace w' = trace w ++ [(Main, EvPthreadCancel tid rc)] ∧
  (∀ tid0 t, threads w !! tid0 = Some t →
             ∃ t', threads w' !! tid0 = Some t' ∧ same_but_pending t t') ∧
  (∀ tid0, threads w !! tid0 = None → threads w' !! tid0 = None).
Proof.
  unfold pthread_cancel. intros H.
  destruct (threads w !! tid) as [t|] eqn:Ht; [case_bool_decide|];
    simplify_eq; simpl; split_and!; eauto using same_but_pending_refl.
  - intros tid0 t0 Ht0. destruct (decide (tid = tid0)) as [->|Hne].
    + rewrite lookup_insert_eq. eexists. split; [done|].
      rewrite Ht in Ht0. simplify_eq. by unfold same_but_pending.
    + rewrite lookup_insert_ne by done. eauto using same_but_pending_refl.
  - intros tid0 Ht0. rewrite lookup_insert_ne; [done|congruence].
Qed.

Lemma interrupt_post args w r w' :
  interrupt args w = Some (r, w') → main_step_post w w'.
Proof.
  unfold interrupt. intros H.
  destruct (PyArg_ParseTuple_O args) as [h|e];
    [|inversion H; subst; apply main_step_post_refl].
  destruct (negb (PyCapsule_CheckExact h));
    [inversion H; subst; apply main_step_post_refl|].
  destruct (PyCapsule_GetPointer h THREAD_HANDLE_NAME) as [p|e];
    [|inversion H; subst; apply main_step_post_refl].
  unfold bind, load_tid in H.
  destruct (heap w !! p) as [[| |id]|]; try discriminate.
  destruct (pthread_cancel Main id w) as [[rc w1]|] eqn:Hc; [|discriminate].
  apply pthread_cancel_post in Hc as (Hh & Htr & Hth & Hnew).
  assert (∃ tr', trace w' = trace w1 ++ tr' ∧ only_by Main tr' ∧
                 heap w' = heap w1 ∧ threads w' = threads w1)
    as (tr' & Htr' & Hby & Hh' & Hth').
  { case_bool_decide; unfold Py_INCREF, emit, ret in H; simpl in H; simplify_eq.
    - exists []. rewrite app_nil_r. split_and!; try done. apply only_by_nil.
    - simpl. eexists. split_and!; try done. eauto with trace_db. }
  split_and!.
  - exists ([(Main, EvPthreadCancel id rc)] ++ tr').
    rewrite Htr', Htr, <- app_assoc. split; [done|].
    eauto with trace_db.
  - intros q b Hq. by rewrite Hh', Hh.
  - intros tid t Ht. rewrite Hth'. eauto.
  - intros tid t' Hn Hs. rewrite Hth', (Hnew _ Hn) in Hs. discriminate.
Qed.

Lemma started_world_post w ti fn :
  routine ti = Some fn → main_step_post w (started_world w ti).
Proof.
  intros Hfn. pose proof (new_block_fresh w) as Hp.
  pose proof (new_tid_fresh w) as Htid.
  unfold started_world. split_and!; simpl.
  - eexists. split; [done | repeat apply only_by_cons; apply only_by_nil].
  - intros q b Hq. rewrite lookup_insert_ne; [done|congruence].
  - intros tid t Ht. rewrite lookup_insert_ne by congruence.
    eauto using same_but_pending_refl.
  - intros tid t' Hn Hs.
    destruct (decide (new_tid w = tid)) as [<-|Hne].
    + rewrite lookup_insert_eq in Hs. simplify_eq.
      split_and!; try done. exists ti, fn. by rewrite lookup_insert_eq.
    + rewrite lookup_insert_ne in Hs by done. congruence.
Qed.

Lemma main_step_post_handle w w1 id tr' :
  main_step_post w w1 →
  only_by Main tr' →
  main_step_post w
    (mkWorld (<[new_block w1 := BThreadId id]> (heap w1)) (threads w1)
             (trace w1 ++ tr')).
Proof.
  intros ((tr1 & Htr & Hby) & Hheap & Hold & Hnew) Hby'.
  pose proof (new_block_fresh w1) as Hq.
  split_and!; simpl.
  - exists (tr1 ++ tr'). rewrite Htr, <- app_assoc. eauto with trace_db.
  - intros q b Hb. apply Hheap in Hb.
    rewrite lookup_insert_ne; [done|congruence].
  - done.
  - intros tid t' Hn Hs. destruct (Hnew _ _ Hn Hs) as (-> & -> & ti & fn & Hti & Hfn).
    split_and!; try done. exists ti, fn. split; [|done].
    rewrite lookup_insert_ne; [done|congruence].
Qed.

(** Whatever [do_interruptably] returns, this is all it did. *)
Lemma do_interruptably_post env args w r w' :
  do_interruptably env args w = Some (r, w') → main_step_post w w'.
Proof.
  destruct (lo_malloc_info env) eqn:Hm.
  2: { rewrite launch_no_memory by done. intros; simplify_eq.
       apply main_step_post_refl. }
  destruct (PyArg_ParseTuple_LOOOO args) as [[[[[fn a1] a2] a3] a4]|e] eqn:Hp.
  2: { erewrite launch_parse_error by done. intros; simplify_eq.
       apply main_step_post_trace. }
  destruct (all_callable a1 a2 a3) eqn:Hc.
  2: { erewrite launch_not_callable by done. intros; simplify_eq.
       apply main_step_post_trace. }
  destruct (decide (start_failed env = 0)) as [Hf|Hf].
  2: { erewrite launch_start_failed by done. intros; simplify_eq.
       apply main_step_post_trace. }
  erewrite launch_started by done. rewrite make_thread_handle_spec.
  destruct (lo_malloc_handle env); intros; simplify_eq.
  - apply main_step_post_handle; [by eapply started_world_post|].
    eauto with trace_db.
  - by eapply started_world_post.
Qed.

(* ================================================================== *)
(** ** The invariant is kept by every step                             *)
(* ================================================================== *)

(** Steps of other actors that leave the context alone do not disturb a
    thread's invariant. *)
Lemma thread_inv_frame (P : TickOracle → Prop) ti w w' tid t t' who tr' :
  thread_inv P ti w tid t →
  same_but_pending t t' →
  trace w' = trace w ++ tr' → only_by who tr' → Thr tid ≠ who →
  (th_pc t ≠ pc_exited → heap w' !! th_arg t = heap w !! th_arg t) →
  thread_inv P ti w' tid t'.
Proof.
  intros (fn & Hfn & Hinv) (Harg & Hpc & Hcs & Hct & Hcl & _) Htr Hby Hne Hheap.
  exists fn. split; [done|]. rewrite Hpc.
  assert (events_of (Thr tid) (trace w') = events_of (Thr tid) (trace w)) as Hev
    by (rewrite Htr; by eapply events_of_only_by).
  destruct (decide (th_pc t = pc_exited)) as [He|He].
  - destruct Hinv as (o & Ho & Hinv). exists o. split; [done|]. by rewrite Hev, Harg.
  - destruct Hinv as (Hh & Hevs & H1 & H2 & H3).
    unfold running_inv. rewrite Hev, Harg, Hpc, Hcs, Hct, Hcl, Hheap by done.
    done.
Qed.

Lemma main_step_thread_inv (P : TickOracle → Prop) w w' tid t ti :
  main_step_post w w' →
  threads w !! tid = Some t →
  thread_inv P ti w tid t →
  ∃ t', threads w' !! tid = Some t' ∧ same_but_pending t t' ∧
        thread_inv P ti w' tid t'.
Proof.
  intros ((tr' & Htr & Hby) & Hheap & Hold & Hnew) Ht Hinv.
  destruct (Hold _ _ Ht) as (t' & Ht' & Hsame).
  exists t'. split_and!; try done.
  eapply thread_inv_frame; try done.
  intros Hrun. destruct Hinv as (fn & Hfn & Hinv).
  rewrite decide_False in Hinv by done.
  destruct Hinv as (Hh & _). rewrite Hh. by apply Hheap.
Qed.

Lemma initial_thread_inv (P : TickOracle → Prop) w tid ti fn p :
  heap w !! p = Some (BThreadInfo ti) →
  routine ti = Some fn →
  events_of (Thr tid) (trace w) = [] →
  thread_inv P ti w tid (initial_thread p).
Proof.
  intros Hh Hfn Hev. exists fn. split; [done|]. simpl.
  unfold running_inv. simpl. by rewrite Hev.
Qed.

Lemma running_owns_context (P : TickOracle → Prop) w tid t ti :
  thread_inv P ti w tid t → th_pc t ≠ pc_exited →
  heap w !! th_arg t = Some (BThreadInfo ti).
Proof.
  intros (fn & Hfn & Hinv) Hrun. rewrite decide_False in Hinv by done.
  by destruct Hinv.
Qed.

Lemma main_step_wf w w' : wf w → main_step_post w w' → wf w'.
Proof.
  intros (Hthr & Hnone & Hdist) Hpost.
  pose proof Hpost as ((tr' & Htr & Hby) & Hheap & Hold & Hnew).
  assert (∀ tid, threads w !! tid = None →
                 events_of (Thr tid) (trace w') = []) as Hquiet.
  { intros tid Hn. rewrite Htr, (events_of_only_by _ Main) by done.
    by apply Hnone. }
  split_and!.
  - intros tid t' Ht'.
    destruct (threads w !! tid) as [t|] eqn:Ht.
    + destruct (Hthr _ _ Ht) as [ti Hinv].
      destruct (main_step_thread_inv _ _ _ _ _ _ Hpost Ht Hinv) as (t'' & Ht'' & _ & Hinv').
      exists ti. congruence.
    + destruct (Hnew _ _ Ht Ht') as (-> & -> & ti & fn & Hti & Hfn).
      exists ti. eapply initial_thread_inv; eauto.
  - intros tid Hn. apply Hquiet.
    destruct (threads w !! tid) as [t|] eqn:Ht; [|done].
    destruct (Hold _ _ Ht) as (t' & Ht' & _). congruence.
  - intros tid1 tid2 t1' t2' H1 H2 Hr1 Hr2 Harg.
    destruct (threads w !! tid1) as [t1|] eqn:Ht1;
      destruct (threads w !! tid2) as [t2|] eqn:Ht2.
    + destruct (Hold _ _ Ht1) as (t1'' & Ht1'' & Ha1 & Hp1 & _).
      destruct (Hold _ _ Ht2) as (t2'' & Ht2'' & Ha2 & Hp2 & _).
      simplify_eq. eapply (Hdist tid1 tid2 t1 t2); congruence.
    + exfalso.
      destruct (Hold _ _ Ht1) as (t1'' & Ht1'' & Ha1 & Hp1 & _).
      destruct (Hnew _ _ Ht2 H2) as (-> & -> & _).
      simplify_eq. destruct (Hthr _ _ Ht1) as [ti Hinv].
      pose proof (running_owns_context _ _ _ _ _ Hinv) as Hown.
      rewrite <- Hp1, <- Ha1, Harg in Hown. simpl in Hown.
      rewrite new_block_fresh in Hown. by discriminate Hown.
    + exfalso.
      destruct (Hold _ _ Ht2) as (t2'' & Ht2'' & Ha2 & Hp2 & _).
      destruct (Hnew _ _ Ht1 H1) as (-> & -> & _).
      simplify_eq. destruct (Hthr _ _ Ht2) as [ti Hinv].
      pose proof (running_owns_context _ _ _ _ _ Hinv) as Hown.
      rewrite <- Hp2, <- Ha2, <- Harg in Hown. simpl in Hown.
      rewrite new_block_fresh in Hown. by discriminate Hown.
    + destruct (Hnew _ _ Ht1 H1) as (-> & _).
      by destruct (Hnew _ _ Ht2 H2) as (-> & _).
Qed.

Lemma own_step_other (P0 P : TickOracle → Prop) w w' tid0 t0 ti0 tid t ti :
  wf w →
  threads w !! tid0 = Some t0 →
  own_step_post P0 ti0 tid0 w t0 w' →
  tid ≠ tid0 →
  threads w !! tid = Some t →
  thread_inv P ti w tid t →
  threads w' !! tid = Some t ∧ thread_inv P ti w' tid t.
Proof.
  intros (Hthr & Hnone & Hdist) Ht0
    (t0' & tr' & Hth & Harg & Hex & Htr & Hby & Hinv0 & Hheap) Hne Ht Hinv.
  split; [by rewrite Hth, lookup_insert_ne|].
  eapply (thread_inv_frame P ti w w' tid t t (Thr tid0) tr');
    [done | apply same_but_pending_refl | done | done | congruence | ].
  intros Hrun.
  destruct Hheap as [[-> _]|(-> & Hrun0 & _)]; [done|].
  apply lookup_delete_ne. intros Heq.
  apply Hne. symmetry. by eapply (Hdist tid0 tid t0 t).
Qed.

Lemma own_step_wf w w' tid t ti :
  wf w →
  threads w !! tid = Some t →
  own_step_post (λ _, True) ti tid w t w' →
  wf w'.
Proof.
  intros Hwf Ht Hpost.
  pose proof Hwf as (Hthr & Hnone & Hdist).
  pose proof Hpost as (t' & tr' & Hth & Harg & Hex & Htr & Hby & Hinv' & Hheap).
  split_and!.
  - intros tid1 t1 Ht1. destruct (decide (tid1 = tid)) as [->|Hne].
    + rewrite Hth, lookup_insert_eq in Ht1. simplify_eq. eauto.
    + rewrite Hth, lookup_insert_ne in Ht1 by done.
      destruct (Hthr _ _ Ht1) as [ti1 Hinv1]. exists ti1.
      by destruct (own_step_other _ _ _ _ _ _ _ _ _ _ Hwf Ht Hpost Hne Ht1 Hinv1).
  - intros tid1 Hn. destruct (decide (tid1 = tid)) as [->|Hne].
    + rewrite Hth, lookup_insert_eq in Hn. discriminate.
    + rewrite Hth, lookup_insert_ne in Hn by done.
      rewrite Htr, (events_of_only_by _ (Thr tid)) by congruence. by apply Hnone.
  - assert (∀ tid1 t1, threads w' !! tid1 = Some t1 → th_pc t1 ≠ pc_exited →
                       ∃ t1', threads w !! tid1 = Some t1' ∧
                              th_pc t1' ≠ pc_exited ∧ th_arg t1' = th_arg t1)
      as Hback.
    { intros tid1 t1 Ht1 Hrun. destruct (decide (tid1 = tid)) as [->|Hne].
      - rewrite Hth, lookup_insert_eq in Ht1. simplify_eq.
        exists t. split_and!; try done. intros He. by apply Hrun, Hex.
      - rewrite Hth, lookup_insert_ne in Ht1 by done. eauto. }
    intros tid1 tid2 t1 t2 H1 H2 Hr1 Hr2 Ha.
    destruct (Hback _ _ H1 Hr1) as (t1' & H1' & Hr1' & Ha1).
    destruct (Hback _ _ H2 Hr2) as (t2' & H2' & Hr2' & Ha2).
    eapply (Hdist tid1 tid2 t1' t2'); congruence.
Qed.

Lemma tick_absent tid o w : threads w !! tid = None → tick tid o w = Some (tt, w).
Proof. intros H. unfold tick. by rewrite H. Qed.

(** A well-formed world stays well-formed, step by step. *)
Lemma step_wf a w w' : wf w → step a w = Some (tt, w') → wf w'.
Proof.
  intros Hwf Hstep. destruct a as [env args|args|tid o]; simpl in Hstep.
  - unfold bind, ret in Hstep.
    destruct (do_interruptably env args w) as [[r w1]|] eqn:Hd; [|discriminate].
    simplify_eq. eapply main_step_wf; [done|]. by eapply do_interruptably_post.
  - unfold bind, ret in Hstep.
    destruct (interrupt args w) as [[r w1]|] eqn:Hd; [|discriminate].
    simplify_eq. eapply main_step_wf; [done|]. by eapply interrupt_post.
  - destruct (threads w !! tid) as [t|] eqn:Ht.
    + destruct Hwf as (Hthr & Hrest). destruct (Hthr _ _ Ht) as [ti Hinv].
      destruct (tick_own _ tid o w t ti I Ht Hinv) as (w1 & Hw1 & Hpost).
      rewrite Hw1 in Hstep. simplify_eq.
      eapply own_step_wf; [|done..]. by split.
    + rewrite tick_absent in Hstep by done. by simplify_eq.
Qed.

(** From a well-formed world no step of the system is undefined, except an
    [interrupt] given a capsule whose record is not in the heap. *)
Lemma step_defined a w :
  wf w →
  (∀ args, a = AInterrupt args → ∃ r w', interrupt args w = Some (r, w')) →
  ∃ w', step a w = Some (tt, w').
Proof.
  intros Hwf Hint. destruct a as [env args|args|tid o]; simpl.
  - destruct (launch_total env args w) as (r & w' & H).
    unfold bind, ret. rewrite H. eauto.
  - destruct (Hint _ eq_refl) as (r & w' & H).
    unfold bind, ret. rewrite H. eauto.
  - destruct (threads w !! tid) as [t|] eqn:Ht.
    + destruct Hwf as (Hthr & Hrest). destruct (Hthr _ _ Ht) as [ti Hinv].
      destruct (tick_own _ tid o w t ti I Ht Hinv) as (w1 & Hw1 & Hpost). eauto.
    + rewrite tick_absent by done. eauto.
Qed.

(** The invariant of one thread, for the context it was started with, is
    kept by every step of the system. *)
Lemma step_thread_inv (P : TickOracle → Prop) a w w' tid t ti :
  wf w →
  threads w !! tid = Some t →
  thread_inv P ti w tid t →
  (∀ o, a = ATick tid o → P o) →
  step a w = Some (tt, w') →
  ∃ t', threads w' !! tid = Some t' ∧ th_arg t' = th_arg t ∧
        thread_inv P ti w' tid t'.
Proof.
  intros Hwf Ht Hinv HP Hstep. destruct a as [env args|args|tid0 o]; simpl in Hstep.
  - unfold bind, ret in Hstep.
    destruct (do_interruptably env args w) as [[r w1]|] eqn:Hd; [|discriminate].
    simplify_eq. apply do_interruptably_post in Hd.
    destruct (main_step_thread_inv _ _ _ _ _ _ Hd Ht Hinv) as (t' & Ht' & Hs & Hinv').
    exists t'. split_and!; try done. by destruct Hs.
  - unfold bind, ret in Hstep.
    destruct (interrupt args w) as [[r w1]|] eqn:Hd; [|discriminate].
    simplify_eq. apply interrupt_post in Hd.
    destruct (main_step_thread_inv _ _ _ _ _ _ Hd Ht Hinv) as (t' & Ht' & Hs & Hinv').
    exists t'. split_and!; try done. by destruct Hs.
  - destruct (decide (tid0 = tid)) as [->|Hne].
    + destruct (tick_own P tid o w t ti (HP _ eq_refl) Ht Hinv) as (w1 & Hw1 & Hpost).
      rewrite Hw1 in Hstep. simplify_eq.
      destruct Hpost as (t' & tr' & Hth & Harg & Hex & Htr & Hby & Hinv' & Hheap).
      exists t'. split_and!; try done. by rewrite Hth, lookup_insert_eq.
    + destruct (threads w !! tid0) as [t0|] eqn:Ht0.
      * pose proof Hwf as (Hthr & Hrest). destruct (Hthr _ _ Ht0) as [ti0 Hinv0].
        destruct (tick_own _ tid0 o w t0 ti0 I Ht0 Hinv0) as (w1 & Hw1 & Hpost).
        rewrite Hw1 in Hstep. simplify_eq.
        destruct (own_step_other _ _ _ _ _ _ _ _ _ _ Hwf Ht0 Hpost (not_eq_sym Hne) Ht Hinv).
        eauto.
      * rewrite tick_absent in Hstep by done. simplify_eq. eauto.
Qed.

Lemma run_cons a acts w :
  run (a :: acts) w = match step a w with
                      | Some (_, w1) => run acts w1
                      | None => None
                      end.
Proof. simpl. unfold bind. destruct (step a w) as [[[] w1]|]; done. Qed.

Lemma run_wf acts w w' : wf w → run acts w = Some (tt, w') → wf w'.
Proof.
  revert w. induction acts as [|a acts IH]; intros w Hwf Hrun.
  - simpl in Hrun. unfold ret in Hrun. by simplify_eq.
  - rewrite run_cons in Hrun.
    destruct (step a w) as [[[] w1]|] eqn:Hs; [|discriminate].
    eapply IH; [|done]. by eapply step_wf.
Qed.

Lemma run_thread_inv (P : TickOracle → Prop) acts w w' tid t ti :
  wf w →
  threads w !! tid = Some t →
  thread_inv P ti w tid t →
  Forall (λ a, ∀ o, a = ATick tid o → P o) acts →
  run acts w = Some (tt, w') →
  ∃ t', threads w' !! tid = Some t' ∧ th_arg t' = th_arg t ∧
        thread_inv P ti w' tid t'.
Proof.
  revert w t. induction acts as [|a acts IH]; intros w t Hwf Ht Hinv HP Hrun.
  - simpl in Hrun. unfold ret in Hrun. simplify_eq. eauto.
  - rewrite run_cons in Hrun.
    destruct (step a w) as [[[] w1]|] eqn:Hs; [|discriminate].
    apply Forall_cons in HP as [HPa HP].
    destruct (step_thread_inv P _ _ _ _ _ _ Hwf Ht Hinv HPa Hs) as (t1 & Ht1 & Ha1 & Hinv1).
    destruct (IH w1 t1 (step_wf _ _ _ Hwf Hs) Ht1 Hinv1 HP Hrun) as (t' & Ht' & Ha' & Hinv').
    exists t'. split_and!; try done. congruence.
Qed.

Lemma wf_empty : wf empty_world.
Proof.
  split_and!; simpl.
  - intros tid t H. by rewrite lookup_empty in H.
  - done.
  - intros tid1 tid2 t1 t2 H. by rewrite lookup_empty in H.
Qed.

(* ================================================================== *)
(** ** From a launch to the end of its thread                          *)
(* ================================================================== *)

Lemma parse_inv args v a1 a2 a3 a4 :
  PyArg_ParseTuple_LOOOO args = inl (v, a1, a2, a3, a4) →
  ∃ fn, args = [fn; a1; a2; a3; a4] ∧ PyLong_AsLongLong fn = inl v ∧
        LLONG_MIN ≤ v ≤ LLONG_MAX.
Proof.
  unfold PyArg_ParseTuple_LOOOO. intros H.
  destruct args as [|fn [|b1 [|b2 [|b3 [|b4 [|b5 rest]]]]]]; try discriminate.
  destruct (PyLong_AsLongLong fn) as [v'|e] eqn:Hk; [|discriminate].
  simplify_eq. exists fn. do 2 (split; [done|]).
  by eapply PyLong_AsLongLong_range.
Qed.

(** If [do_interruptably] leaves a new thread behind, the thread is in its
    initial state and owns a context built from the five arguments. *)
Lemma launch_spawned (P : TickOracle → Prop) env args w r w1 t0 :
  wf w →
  do_interruptably env args w = Some (r, w1) →
  threads w1 !! new_tid w = Some t0 →
  ∃ fn v a1 a2 a3 a4,
    args = [fn; a1; a2; a3; a4] ∧ PyLong_AsLongLong fn = inl v ∧
    LLONG_MIN ≤ v ≤ LLONG_MAX ∧ all_callable a1 a2 a3 = true ∧
    t0 = initial_thread (new_block w) ∧
    thread_inv P (launched_info v a1 a2 a3 a4) w1 (new_tid w) t0.
Proof.
  intros Hwf Hd Ht0.
  pose proof (new_tid_fresh w) as Hfresh.
  pose proof (do_interruptably_post _ _ _ _ _ Hd) as Hpost.
  destruct (lo_malloc_info env) eqn:Hm.
  2: { rewrite launch_no_memory in Hd by done. simplify_eq; congruence. }
  destruct (PyArg_ParseTuple_LOOOO args) as [[[[[v a1] a2] a3] a4]|e] eqn:Hp.
  2: { erewrite launch_parse_error in Hd by done. simplify_eq; simpl in *; congruence. }
  destruct (all_callable a1 a2 a3) eqn:Hc.
  2: { erewrite launch_not_callable in Hd by done. simplify_eq; simpl in *; congruence. }
  destruct (decide (start_failed env = 0)) as [Hf|Hf].
  2: { erewrite launch_start_failed in Hd by done. simplify_eq; simpl in *; congruence. }
  destruct (parse_inv _ _ _ _ _ _ Hp) as (fn & -> & Hk & Hv).
  exists fn, v, a1, a2, a3, a4.
  destruct Hpost as ((tr' & Htr & Hby) & Hheap & Hold & Hnew).
  destruct (Hnew _ _ Hfresh Ht0) as (_ & -> & ti & f & Hti & Hf').
  do 5 (split; [done|]).
  assert (heap w1 !! new_block w = Some (BThreadInfo (launched_info v a1 a2 a3 a4)))
    as Hctx.
  { erewrite launch_started in Hd by done. rewrite make_thread_handle_spec in Hd.
    pose proof (new_block_fresh (started_world w (mkThreadInfo a1 a2 a3 a4 (Some v)))) as Hq.
    destruct (lo_malloc_handle env); simplify_eq; simpl in *.
    - rewrite lookup_insert_ne; [by rewrite lookup_insert_eq|].
      intros Heq. rewrite Heq, lookup_insert_eq in Hq. discriminate.
    - by rewrite lookup_insert_eq. }
  eapply initial_thread_inv; [done..|].
  rewrite Htr, (events_of_only_by _ Main) by done.
  destruct Hwf as (_ & Hnone & _). by apply Hnone.
Qed.

(** A launch that returns a handle has started a thread, and the handle
    is a tagged capsule whose record holds the thread's identifier. *)
Lemma launch_ok_spawned env args w h w1 :
  do_interruptably env args w = Some (PyOk h, w1) →
  threads w1 !! new_tid w = Some (initial_thread (new_block w)) ∧
  ∃ q, ob_kind h = KCapsule q (Some THREAD_HANDLE_NAME) ∧
       heap w1 !! q = Some (BThreadId (new_tid w)).
Proof.
  intros Hd.
  destruct (lo_malloc_info env) eqn:Hm.
  2: { rewrite launch_no_memory in Hd by done. simplify_eq. }
  destruct (PyArg_ParseTuple_LOOOO args) as [[[[[v a1] a2] a3] a4]|e] eqn:Hp.
  2: { erewrite launch_parse_error in Hd by done. simplify_eq. }
  destruct (all_callable a1 a2 a3) eqn:Hc.
  2: { erewrite launch_not_callable in Hd by done. simplify_eq. }
  destruct (decide (start_failed env = 0)) as [Hf|Hf].
  2: { erewrite launch_start_failed in Hd by done. simplify_eq. }
  erewrite launch_started in Hd by done. rewrite make_thread_handle_spec in Hd.
  destruct (lo_malloc_handle env); [|simplify_eq].
  unfold PyCapsule_New in Hd. destruct (lo_capsule env) as [a|]; [|simplify_eq].
  simplify_eq. simpl. split; [by rewrite lookup_insert_eq|].
  eexists. split; [done|]. by rewrite lookup_insert_eq.
Qed.

(** The thread of a launch keeps its invariant, for the context built from
    the launch's arguments, along every execution. *)
Lemma launch_thread_inv (P : TickOracle → Prop) env args w r w1 t0 acts w2 :
  wf w →
  do_interruptably env args w = Some (r, w1) →
  threads w1 !! new_tid w = Some t0 →
  Forall (λ a, ∀ o, a = ATick (new_tid w) o → P o) acts →
  run acts w1 = Some (tt, w2) →
  ∃ fn v a1 a2 a3 a4 t,
    args = [fn; a1; a2; a3; a4] ∧ PyLong_AsLongLong fn = inl v ∧
    threads w2 !! new_tid w = Some t ∧ th_arg t = new_block w ∧
    thread_inv P (launched_info v a1 a2 a3 a4) w2 (new_tid w) t.
Proof.
  intros Hwf Hd Ht0 HP Hrun.
  destruct (launch_spawned P _ _ _ _ _ _ Hwf Hd Ht0)
    as (fn & v & a1 & a2 & a3 & a4 & -> & Hk & Hv & Hc & -> & Hinv).
  assert (wf w1) as Hwf1.
  { eapply main_step_wf; [done|]. by eapply do_interruptably_post. }
  destruct (run_thread_inv P _ _ _ _ _ _ Hwf1 Ht0 Hinv HP Hrun) as (t & Ht & Ha & Hinv').
  exists fn, v, a1, a2, a3, a4, t. split_and!; done.
Qed.

Lemma calls_in_app evs1 evs2 : calls_in (evs1 ++ evs2) = calls_in evs1 ++ calls_in evs2.
Proof. unfold calls_in. apply flat_map_app. Qed.

Lemma frees_in_app evs1 evs2 : frees_in (evs1 ++ evs2) = frees_in evs1 ++ frees_in evs2.
Proof. unfold frees_in. apply flat_map_app. Qed.

Lemma prologue_quiet thr fn k :
  calls_in (take k (prologue thr fn)) = [] ∧ frees_in (take k (prologue thr fn)) = [].
Proof. do 8 (destruct k as [|k]; [done|]). done. Qed.

Lemma bridge_events_release o ti thr cb :
  ∃ head, bridge_events o ti thr cb = head ++ release_events ti thr ∧
          frees_in head = [] ∧
          calls_in head = (if to_build_ok o then [(cb, [data ti])] else []).
Proof.
  unfold bridge_events, release_events.
  eexists. split; [by rewrite app_assoc|].
  destruct (to_build_ok o), (to_call_result o); done.
Qed.

(** With the argument tuple built, the bridge makes one call, of the given
    callable on the retained argument, and frees the context after it. *)
Lemma bridge_events_built o ti thr cb :
  to_build_ok o = true →
  ∃ between,
    bridge_events o ti thr cb =
      [EvGILEnsure; EvBuildValue [data ti]] ++
      [EvCall cb [data ti] (to_call_result o)] ++ between ++ [EvFree thr] ∧
    calls_in between = [] ∧ frees_in between = [].
Proof.
  intros Hb. unfold bridge_events. rewrite Hb.
  destruct (to_call_result o) as [r|]; simpl.
  - by exists [EvDecrefArgs [data ti]; EvDecref r; EvDecref (ok_cbak ti);
               EvDecref (cancel_cbak ti); EvDecref (err_cbak ti);
               EvDecref (data ti); EvGILRelease].
  - by exists [EvDecrefArgs [data ti]; EvDecref (ok_cbak ti);
               EvDecref (cancel_cbak ti); EvDecref (err_cbak ti);
               EvDecref (data ti); EvGILRelease].
Qed.

Opaque bridge_events.

(** Every step brings a thread closer to its end, provided the routine
    returns when it is given the step. *)
Lemma tick_progress (P : TickOracle → Prop) tid o w t ti :
  threads w !! tid = Some t →
  thread_inv P ti w tid t →
  th_pc t ≠ pc_exited →
  to_routine_returns o = true →
  ∃ w' t',
    tick tid o w = Some (tt, w') ∧ threads w' !! tid = Some t' ∧
    (remaining (th_pc t') < remaining (th_pc t))%nat.
Proof.
  intros Ht (fn & Hfn & Hinv) Hpc Hret.
  rewrite decide_False in Hinv by done.
  destruct Hinv as (Hheap & Hev & Hcs & Hct & Hcl).
  destruct t as [p pc cs ct pend cl]. simpl in *. subst cs ct cl.
  unfold tick. rewrite Ht. simpl.
  rewrite bool_decide_eq_false_2 by done.
  unfold cancellable. simpl.
  destruct pend, pc; simpl in *; try done;
    thread_step_tac Hheap; rewrite ?Hfn, ?Hret; simpl;
    try (rewrite (handler_exec_spec _ _ _ _ _ ti) by done; simpl);
    (eexists _, _; split; [reflexivity|]); simpl;
    rewrite lookup_insert_eq; (split; [reflexivity|]); simpl; lia.
Qed.

Transparent bridge_events.

Lemma tick_exited tid o w t :
  threads w !! tid = Some t → th_pc t = pc_exited → tick tid o w = Some (tt, w).
Proof. intros Ht He. unfold tick. by rewrite Ht, bool_decide_eq_true_2. Qed.

(** A thread whose routine returns ends within [remaining] steps. *)
Lemma ticks_end_thread (P : TickOracle → Prop) n tid o w t ti :
  wf w →
  threads w !! tid = Some t →
  thread_inv P ti w tid t →
  P o →
  to_routine_returns o = true →
  (remaining (th_pc t) ≤ n)%nat →
  ∃ w' t',
    run (replicate n (ATick tid o)) w = Some (tt, w') ∧
    threads w' !! tid = Some t' ∧ th_pc t' = pc_exited.
Proof.
  revert w t. induction n as [|n IH]; intros w t Hwf Ht Hinv HP Hret Hrem.
  - exists w, t. split_and!; try done. destruct (th_pc t); simpl in Hrem; done || lia.
  - simpl replicate. rewrite run_cons. simpl step.
    destruct (decide (th_pc t = pc_exited)) as [He|He].
    + rewrite (tick_exited _ _ _ _ Ht He). apply (IH w t); try done.
      rewrite He. simpl. lia.
    + destruct (tick_progress P tid o w t ti Ht Hinv He Hret)
        as (w1 & t1 & Hw1 & Ht1 & Hlt).
      rewrite Hw1.
      assert (step (ATick tid o) w = Some (tt, w1)) as Hs by done.
      assert (∀ o', ATick tid o = ATick tid o' → P o') as HPa
        by (intros o' [= <-]; done).
      destruct (step_thread_inv P _ _ _ _ _ _ Hwf Ht Hinv HPa Hs)
        as (t1' & Ht1' & _ & Hinv1).
      simplify_eq.
      apply (IH w1 t1); try done.
      * apply (step_wf (ATick tid o) w w1 Hwf Hw1).
      * lia.
Qed.

(** C1, as amended: after a launch that returned a handle, as long as the
    thread has not ended no callback has been invoked and its context is
    allocated and holds the launch's arguments; once it has ended, and
    provided [Py_BuildValue] could allocate the argument tuple, exactly
    one callback was invoked, it was [ok_cbak] or [cancel_cbak], exactly
    once, on the very [arg] object given to the launch, and the context
    was freed once, after that invocation.  The thread does end: eight
    steps in which the user routine returns are enough from any point. *)
Theorem launch_fires_one_callback
    (env : LaunchOracle) (args : list PyObject) (w : World) (h : PyObject)
    (w1 : World) (acts : list Action) (w2 : World) :
  wf w →
  do_interruptably env args w = Some (PyOk h, w1) →
  Forall (λ a, ∀ o, a = ATick (new_tid w) o → to_build_ok o = true) acts →
  run acts w1 = Some (tt, w2) →
  ∃ fn ok cancel err arg t,
    args = [fn; ok; cancel; err; arg] ∧
    threads w2 !! new_tid w = Some t ∧
    (th_pc t ≠ pc_exited →
       calls_in (events_of (Thr (new_tid w)) (trace w2)) = [] ∧
       frees_in (events_of (Thr (new_tid w)) (trace w2)) = [] ∧
       ∃ v, heap w2 !! th_arg t = Some (BThreadInfo (launched_info v ok cancel err arg))) ∧
    (th_pc t = pc_exited →
       ∃ cb r before between,
         (cb = ok ∨ cb = cancel) ∧
         events_of (Thr (new_tid w)) (trace w2) =
           before ++ [EvCall cb [arg] r] ++ between ++ [EvFree (th_arg t)] ∧
         calls_in before = [] ∧ frees_in before = [] ∧
         calls_in between = [] ∧ frees_in between = []) ∧
    (∀ o, to_routine_returns o = true →
          ∃ w3 t3, run (replicate 8 (ATick (new_tid w) o)) w2 = Some (tt, w3) ∧
                   threads w3 !! new_tid w = Some t3 ∧ th_pc t3 = pc_exited).
Proof.
  intros Hwf Hd HP Hrun.
  destruct (launch_ok_spawned _ _ _ _ _ Hd) as (Ht0 & _).
  assert (∀ o, to_routine_returns o = true →
               ∃ w3 t3, run (replicate 8 (ATick (new_tid w) o)) w2 = Some (tt, w3) ∧
                        threads w3 !! new_tid w = Some t3 ∧ th_pc t3 = pc_exited)
    as Hends.
  { intros o Hret.
    destruct (launch_thread_inv (λ _, True) env args w _ w1 _ acts w2 Hwf Hd Ht0)
      as (fn & v & ok & cancel & err & arg & t & _ & _ & Ht & _ & Hinv);
      [by apply Forall_forall | done |].
    assert (wf w2) as Hwf2.
    { eapply run_wf; [|done]. eapply main_step_wf; [done|].
      by eapply do_interruptably_post. }
    apply (ticks_end_thread (λ _, True) 8 _ o w2 t _ Hwf2 Ht Hinv I Hret).
    destruct (th_pc t); simpl; lia. }
  destruct (launch_thread_inv (λ o, to_build_ok o = true) _ _ _ _ _ _ _ _
              Hwf Hd Ht0 HP Hrun)
    as (fn & v & ok & cancel & err & arg & t & -> & Hk & Ht & Ha & (f & Hf & Hinv)).
  exists fn, ok, cancel, err, arg, t. do 2 (split; [done|]).
  destruct (decide (th_pc t = pc_exited)) as [He|He];
    [split; [done|]; split; [intros _|exact Hends]
    |split; [intros _|split; [done|exact Hends]]].
  - destruct Hinv as (o & Hb & [Hev|(k & Hk3 & Hev)]); rewrite Hev;
      destruct (bridge_events_built o (launched_info v ok cancel err arg)
                  (th_arg t)) with (cb := ok) as (bo & Ho & Hco & Hfo); try done;
      destruct (bridge_events_built o (launched_info v ok cancel err arg)
                  (th_arg t)) with (cb := cancel) as (bc & Hc & Hcc & Hfc); try done.
    + exists ok, (to_call_result o),
        (prologue (th_arg t) f ++ [EvGILEnsure; EvBuildValue [arg]]), bo.
      split; [by left|]. unfold completed_events.
      cbn [ok_cbak cancel_cbak data launched_info] in *. rewrite Ho.
      split; [by rewrite <- !app_assoc|]. done.
    + exists cancel, (to_call_result o),
        (take k (prologue (th_arg t) f) ++ [EvCancelActed; EvGILEnsure; EvBuildValue [arg]]),
        bc.
      split; [by right|]. unfold cancelled_events.
      cbn [ok_cbak cancel_cbak data launched_info] in *. rewrite Hc.
      split; [by rewrite <- !app_assoc|].
      destruct (prologue_quiet (th_arg t) f k) as [Hq1 Hq2].
      rewrite calls_in_app, frees_in_app, Hq1, Hq2. done.
  - destruct Hinv as (Hh & Hev & _). rewrite Hev.
    destruct (prologue_quiet (th_arg t) f (pc_index (th_pc t))) as [-> ->].
    eauto.
Qed.

Lemma launch_fires_one_callback_witness :
  ∃ h w1 w2,
    do_interruptably sample_env sample_args empty_world = Some (PyOk h, w1) ∧
    run (replicate 8 (ATick 0%N sample_tick)) w1 = Some (tt, w2) ∧
    ∃ fn ok cancel err arg t,
      sample_args = [fn; ok; cancel; err; arg] ∧
      threads w2 !! new_tid empty_world = Some t ∧
      (th_pc t ≠ pc_exited →
         calls_in (events_of (Thr (new_tid empty_world)) (trace w2)) = [] ∧
         frees_in (events_of (Thr (new_tid empty_world)) (trace w2)) = [] ∧
         ∃ v, heap w2 !! th_arg t =
                Some (BThreadInfo (launched_info v ok cancel err arg))) ∧
      (th_pc t = pc_exited →
         ∃ cb r before between,
           (cb = ok ∨ cb = cancel) ∧
           events_of (Thr (new_tid empty_world)) (trace w2) =
             before ++ [EvCall cb [arg] r] ++ between ++ [EvFree (th_arg t)] ∧
           calls_in before = [] ∧ frees_in before = [] ∧
           calls_in between = [] ∧ frees_in between = []) ∧
      (∀ o, to_routine_returns o = true →
            ∃ w3 t3, run (replicate 8 (ATick (new_tid empty_world) o)) w2 = Some (tt, w3) ∧
                     threads w3 !! new_tid empty_world = Some t3 ∧
                     th_pc t3 = pc_exited).
Proof.
  eexists _, _, _.
  split; [vm_compute; reflexivity|].
  split; [vm_compute; reflexivity|].
  eapply (launch_fires_one_callback sample_env sample_args empty_world _ _
            (replicate 8 (ATick 0%N sample_tick)) _ wf_empty).
  - vm_compute. reflexivity.
  - repeat constructor; intros o Heq; inversion Heq; reflexivity.
  - vm_compute. reflexivity.
Defined.

(** C1 as stated fails: when [Py_BuildValue] cannot allocate the argument
    tuple, the thread of a successful launch ends without any callback
    having been invoked. *)
Lemma launch_without_callback_counterexample :
  ∃ w1 w2 t,
    do_interruptably sample_env sample_args empty_world = Some (PyOk sample_handle, w1) ∧
    run (replicate 8 (ATick 0%N sample_tick_nobuild)) w1 = Some (tt, w2) ∧
    threads w2 !! 0%N = Some t ∧ th_pc t = pc_exited ∧
    calls_in (events_of (Thr 0%N) (trace w2)) = [] ∧
    frees_in (events_of (Thr 0%N) (trace w2)) = [1%positive].
Proof.
  eexists _, _, _.
  split; [vm_compute; reflexivity|].
  split; [vm_compute; reflexivity|].
  split; [vm_compute; reflexivity|].
  split; [reflexivity|].
  split; vm_compute; reflexivity.
Qed.

(* ================================================================== *)
(** ** The callback bridge                                             *)
(* ================================================================== *)

Lemma retained_release a ti thr :
  retained a (release_events ti thr) = - occurrences a ti.
Proof.
  unfold release_events, occurrences. simpl.
  rewrite !filter_cons, filter_nil.
  repeat case_bool_decide; repeat case_decide; simpl; try done; try lia.
Qed.

Lemma bridge_events_balanced o ti thr cb :
  ∃ head, bridge_events o ti thr cb = head ++ release_events ti thr ∧
          frees_in head = [] ∧ (∀ a, retained a head = 0).
Proof.
  unfold bridge_events, release_events.
  eexists. split; [by rewrite app_assoc|].
  destruct (to_build_ok o), (to_call_result o) as [r|]; simpl; split; try done;
    intros a; case_bool_decide; lia.
Qed.

(** C9: when [Py_BuildValue] fails, [handler_exec] invokes nothing and
    still releases the four objects and frees the context; hence a launch
    whose bridge cannot build the tuple ends with no completion callback
    invoked at all, its four references released and its context freed. *)
Theorem build_failure_drops_callback :
  (∀ who o thr cb w ti,
     heap w !! thr = Some (BThreadInfo ti) →
     to_build_ok o = false →
     handler_exec who o thr cb w =
       Some (tt, mkWorld (delete thr (heap w)) (threads w)
                   (trace w ++ map (pair who) (EvGILEnsure :: release_events ti thr)))) ∧
  (∀ env args w h w1 acts w2 t,
     wf w →
     do_interruptably env args w = Some (PyOk h, w1) →
     Forall (λ a, ∀ o, a = ATick (new_tid w) o → to_build_ok o = false) acts →
     run acts w1 = Some (tt, w2) →
     threads w2 !! new_tid w = Some t →
     th_pc t = pc_exited →
     ∃ fn ok cancel err arg v before,
       args = [fn; ok; cancel; err; arg] ∧
       calls_in (events_of (Thr (new_tid w)) (trace w2)) = [] ∧
       events_of (Thr (new_tid w)) (trace w2) =
         before ++ release_events (launched_info v ok cancel err arg) (th_arg t) ∧
       frees_in before = []).
Proof.
  split.
  - intros who o thr cb w ti Hh Hb.
    rewrite (handler_exec_spec _ _ _ _ _ ti) by done.
    unfold bridge_events. by rewrite Hb.
  - intros env args w h w1 acts w2 t Hwf Hd HP Hrun Ht He.
    destruct (launch_ok_spawned _ _ _ _ _ Hd) as (Ht0 & _).
    destruct (launch_thread_inv (λ o, to_build_ok o = false) _ _ _ _ _ _ _ _
                Hwf Hd Ht0 HP Hrun)
      as (fn & v & ok & cancel & err & arg & t' & -> & Hk & Ht' & Ha & (f & Hf & Hinv)).
    simplify_eq. rewrite decide_True in Hinv by done.
    exists fn, ok, cancel, err, arg, v.
    destruct Hinv as (o & Hb & [Hev|(k & Hk3 & Hev)]); rewrite Hev.
    + destruct (bridge_events_release o (launched_info v ok cancel err arg)
                  (th_arg t) ok) as (head & Hhead & Hfr & Hca).
      rewrite Hb in Hca. unfold completed_events.
      cbn [ok_cbak cancel_cbak data launched_info] in *. rewrite Hhead.
      exists (prologue (th_arg t) f ++ head). split; [done|].
      rewrite !calls_in_app, frees_in_app, Hca, Hfr.
      split; [done|]. by rewrite <- app_assoc.
    + destruct (bridge_events_release o (launched_info v ok cancel err arg)
                  (th_arg t) cancel) as (head & Hhead & Hfr & Hca).
      rewrite Hb in Hca. unfold cancelled_events.
      cbn [ok_cbak cancel_cbak data launched_info] in *. rewrite Hhead.
      destruct (prologue_quiet (th_arg t) f k) as [Hq1 Hq2].
      exists (take k (prologue (th_arg t) f) ++ EvCancelActed :: head).
      split; [done|].
      rewrite !calls_in_app, frees_in_app, Hq1, Hq2.
      change (EvCancelActed :: head ++ ?x) with ((EvCancelActed :: head) ++ x).
      rewrite calls_in_app. simpl. rewrite Hca, Hfr.
      split; [done|]. by rewrite <- app_assoc.
Qed.

Lemma build_failure_drops_callback_witness :
  (∃ w', handler_exec (Thr 0%N) sample_tick_nobuild 1%positive (mkObj 2 KCallable)
           (mkWorld {[1%positive := BThreadInfo
                        (launched_info 4096 (mkObj 2 KCallable) (mkObj 3 KCallable)
                           (mkObj 4 KCallable) (mkObj 9 KOther))]} ∅ [])
         = Some (tt, w') ∧ calls_in (events_of (Thr 0%N) (trace w')) = []) ∧
  ∃ w1 w2 t,
    do_interruptably sample_env sample_args empty_world = Some (PyOk sample_handle, w1) ∧
    run (replicate 8 (ATick 0%N sample_tick_nobuild)) w1 = Some (tt, w2) ∧
    threads w2 !! new_tid empty_world = Some t ∧
    ∃ fn ok cancel err arg v before,
      sample_args = [fn; ok; cancel; err; arg] ∧
      calls_in (events_of (Thr (new_tid empty_world)) (trace w2)) = [] ∧
      events_of (Thr (new_tid empty_world)) (trace w2) =
        before ++ release_events (launched_info v ok cancel err arg) (th_arg t) ∧
      frees_in before = [].
Proof.
  split.
  - eexists. split.
    + apply (proj1 build_failure_drops_callback (Thr 0%N) sample_tick_nobuild
               1%positive (mkObj 2 KCallable)
               (mkWorld {[1%positive := BThreadInfo
                            (launched_info 4096 (mkObj 2 KCallable) (mkObj 3 KCallable)
                               (mkObj 4 KCallable) (mkObj 9 KOther))]} ∅ [])
               (launched_info 4096 (mkObj 2 KCallable) (mkObj 3 KCallable)
                  (mkObj 4 KCallable) (mkObj 9 KOther))).
      * reflexivity.
      * reflexivity.
    + vm_compute. reflexivity.
  - eexists _, _, _.
    split; [vm_compute; reflexivity|].
    split; [vm_compute; reflexivity|].
    split; [vm_compute; reflexivity|].
    eapply (proj2 build_failure_drops_callback sample_env sample_args empty_world
              sample_handle _ (replicate 8 (ATick 0%N sample_tick_nobuild)) _ _ wf_empty).
    + vm_compute. reflexivity.
    + repeat constructor; intros o Heq; inversion Heq; reflexivity.
    + vm_compute. reflexivity.
    + vm_compute. reflexivity.
    + reflexivity.
Defined.

Lemma prologue_no_refs thr fn k a : retained a (take k (prologue thr fn)) = 0.
Proof. do 8 (destruct k as [|k]; [done|]). done. Qed.

(** Only a step of the owning thread changes the context of a thread that
    has not ended, and that step ends the thread. *)
Lemma context_destroyed_by_owner a w w' tid t :
  wf w →
  threads w !! tid = Some t →
  th_pc t ≠ pc_exited →
  step a w = Some (tt, w') →
  heap w' !! th_arg t ≠ heap w !! th_arg t →
  ∃ o t', a = ATick tid o ∧ threads w' !! tid = Some t' ∧ th_pc t' = pc_exited.
Proof.
  intros Hwf Ht Hrun Hstep Hchg.
  pose proof Hwf as (Hthr & Hnone & Hdist).
  destruct (Hthr _ _ Ht) as [ti Hinv].
  pose proof (running_owns_context _ _ _ _ _ Hinv Hrun) as Hown.
  destruct a as [env args|args|tid0 o]; simpl in Hstep.
  - unfold bind, ret in Hstep.
    destruct (do_interruptably env args w) as [[r w1]|] eqn:Hd; [|discriminate].
    simplify_eq. apply do_interruptably_post in Hd as (_ & Hheap & _).
    exfalso. apply Hchg. rewrite Hown. by apply Hheap.
  - unfold bind, ret in Hstep.
    destruct (interrupt args w) as [[r w1]|] eqn:Hd; [|discriminate].
    simplify_eq. apply interrupt_post in Hd as (_ & Hheap & _).
    exfalso. apply Hchg. rewrite Hown. by apply Hheap.
  - destruct (threads w !! tid0) as [t0|] eqn:Ht0.
    2: { rewrite tick_absent in Hstep by done. by simplify_eq. }
    destruct (Hthr _ _ Ht0) as [ti0 Hinv0].
    destruct (tick_own _ tid0 o w t0 ti0 I Ht0 Hinv0) as (w1 & Hw1 & Hpost).
    rewrite Hw1 in Hstep. simplify_eq.
    destruct Hpost as (t' & tr' & Hth & Harg & Hex & Htr & Hby & Hinv' & Hheap).
    destruct Hheap as [[Hsame _]|(Hdel & Hrun0 & Hexit)].
    { exfalso. apply Hchg. by rewrite Hsame. }
    destruct (decide (tid0 = tid)) as [->|Hne].
    + exists o, t'. split_and!; try done. by rewrite Hth, lookup_insert_eq.
    + exfalso. apply Hchg. rewrite Hdel. apply lookup_delete_ne.
      intros Heq. apply Hne. by eapply (Hdist tid0 tid t0 t).
Qed.

(** However a thread has ended, its last events are the releases of the
    four references and the freeing of its context, and over its whole life
    it gave back exactly the references held in the four fields. *)
Lemma thread_inv_exited_release (P : TickOracle → Prop) ti w tid t :
  thread_inv P ti w tid t →
  th_pc t = pc_exited →
  ∃ before,
    events_of (Thr tid) (trace w) = before ++ release_events ti (th_arg t) ∧
    frees_in before = [] ∧
    (∀ a, retained a (events_of (Thr tid) (trace w)) = - occurrences a ti).
Proof.
  intros (f & Hf & Hinv) He. rewrite decide_True in Hinv by done.
  destruct Hinv as (o & _ & [Hev|(k & Hk3 & Hev)]); rewrite Hev.
  - destruct (bridge_events_balanced o ti (th_arg t) (ok_cbak ti))
      as (head & Hhead & Hfr & Hbal).
    unfold completed_events. rewrite Hhead.
    exists (prologue (th_arg t) f ++ head).
    split; [by rewrite <- app_assoc|].
    split; [by rewrite frees_in_app, Hfr|].
    intros a. rewrite !retained_app, Hbal, retained_release.
    unfold prologue. simpl. lia.
  - destruct (bridge_events_balanced o ti (th_arg t) (cancel_cbak ti))
      as (head & Hhead & Hfr & Hbal).
    unfold cancelled_events. rewrite Hhead.
    destruct (prologue_quiet (th_arg t) f k) as [Hq1 Hq2].
    exists (take k (prologue (th_arg t) f) ++ EvCancelActed :: head).
    split; [by rewrite <- app_assoc|].
    split; [rewrite frees_in_app, Hq2; simpl; by rewrite Hfr|].
    intros a.
    change (EvCancelActed :: head ++ ?x) with ([EvCancelActed] ++ head ++ x).
    rewrite !retained_app, Hbal, retained_release, prologue_no_refs. simpl. lia.
Qed.

(** C8, as amended: on a live context [handler_exec] never goes wrong;
    whatever the callback does, it gives back exactly the references held
    in the four fields, once each, and then frees the context.  Both ways a
    launched thread ends go through it.  No other step of the system
    destroys the context of a thread that has not ended
    ([do_interruptably] frees only the context it has itself allocated and
    not handed to a thread). *)
Theorem handler_exec_releases_all :
  (∀ who o thr cb w ti,
     heap w !! thr = Some (BThreadInfo ti) →
     ∃ w' head,
       handler_exec who o thr cb w = Some (tt, w') ∧
       trace w' = trace w ++ map (pair who) (head ++ release_events ti thr) ∧
       frees_in head = [] ∧
       (∀ a, retained a head = 0) ∧
       (∀ a, retained a (head ++ release_events ti thr) = - occurrences a ti) ∧
       heap w' = delete thr (heap w) ∧ threads w' = threads w) ∧
  (∀ env args w h w1 acts w2 t,
     wf w →
     do_interruptably env args w = Some (PyOk h, w1) →
     run acts w1 = Some (tt, w2) →
     threads w2 !! new_tid w = Some t →
     th_pc t = pc_exited →
     ∃ fn ok cancel err arg v before,
       args = [fn; ok; cancel; err; arg] ∧
       events_of (Thr (new_tid w)) (trace w2) =
         before ++ release_events (launched_info v ok cancel err arg) (th_arg t) ∧
       frees_in before = [] ∧
       (∀ a, retained a (events_of (Thr (new_tid w)) (trace w2)) =
             - occurrences a (launched_info v ok cancel err arg))) ∧
  (∀ a w w' tid t,
     wf w →
     threads w !! tid = Some t →
     th_pc t ≠ pc_exited →
     step a w = Some (tt, w') →
     heap w' !! th_arg t ≠ heap w !! th_arg t →
     ∃ o t', a = ATick tid o ∧ threads w' !! tid = Some t' ∧ th_pc t' = pc_exited).
Proof.
  split_and!.
  - intros who o thr cb w ti Hh.
    destruct (bridge_events_balanced o ti thr cb) as (head & Hhead & Hfr & Hbal).
    eexists _, head. rewrite (handler_exec_spec _ _ _ _ _ ti) by done.
    split; [done|]. cbn [trace heap threads]. rewrite Hhead. split_and!; try done.
    intros a. by rewrite retained_app, Hbal, retained_release.
  - intros env args w h w1 acts w2 t Hwf Hd Hrun Ht He.
    destruct (launch_ok_spawned _ _ _ _ _ Hd) as (Ht0 & _).
    destruct (launch_thread_inv (λ _, True) env args w _ w1 _ acts w2 Hwf Hd Ht0)
      as (fn & v & ok & cancel & err & arg & t' & -> & Hk & Ht' & Ha & (f & Hf & Hinv));
      [by apply Forall_forall | done |].
    simplify_eq.
    destruct (thread_inv_exited_release _ _ _ _ _ (ex_intro _ f (conj Hf Hinv)) He)
      as (before & Hev & Hfr & Hret).
    by exists fn, ok, cancel, err, arg, v, before.
  - apply context_destroyed_by_owner.
Qed.

Lemma sample_launch :
  do_interruptably sample_env sample_args empty_world =
    Some (PyOk sample_handle, sample_world sample_tick 0).
Proof. vm_compute. reflexivity. Qed.

Lemma sample_world_wf o n : wf (sample_world o n).
Proof.
  unfold sample_world, bind.
  destruct (do_interruptably sample_env sample_args empty_world) as [[r w1]|] eqn:Hd;
    [|apply wf_empty].
  assert (wf w1) as Hwf1.
  { eapply main_step_wf; [apply wf_empty|]. by eapply do_interruptably_post. }
  destruct (run (replicate n (ATick 0%N o)) w1) as [[[] w2]|] eqn:Hrun;
    [|apply wf_empty].
  by eapply run_wf.
Qed.

Lemma handler_exec_releases_all_witness :
  (∃ w' head,
     handler_exec (Thr 0%N) sample_tick 1%positive (mkObj 2 KCallable)
       (mkWorld {[1%positive := BThreadInfo
                    (launched_info 4096 (mkObj 2 KCallable) (mkObj 3 KCallable)
                       (mkObj 4 KCallable) (mkObj 9 KOther))]} ∅ [])
       = Some (tt, w') ∧
     trace w' = [] ++ map (pair (Thr 0%N))
                  (head ++ release_events
                     (launched_info 4096 (mkObj 2 KCallable) (mkObj 3 KCallable)
                        (mkObj 4 KCallable) (mkObj 9 KOther)) 1%positive) ∧
     frees_in head = [] ∧
     heap w' = delete 1%positive {[1%positive := BThreadInfo
                    (launched_info 4096 (mkObj 2 KCallable) (mkObj 3 KCallable)
                       (mkObj 4 KCallable) (mkObj 9 KOther))]}) ∧
  (∃ fn ok cancel err arg v before,
     sample_args = [fn; ok; cancel; err; arg] ∧
     events_of (Thr (new_tid empty_world)) (trace (sample_world sample_tick 8)) =
       before ++ release_events (launched_info v ok cancel err arg) 1%positive ∧
     frees_in before = []) ∧
  (∃ o t', ATick 0%N sample_tick = ATick 0%N o ∧
           threads (sample_world sample_tick 8) !! 0%N = Some t' ∧
           th_pc t' = pc_exited).
Proof.
  split_and!.
  - destruct (proj1 handler_exec_releases_all (Thr 0%N) sample_tick 1%positive
                (mkObj 2 KCallable)
                (mkWorld {[1%positive := BThreadInfo
                             (launched_info 4096 (mkObj 2 KCallable) (mkObj 3 KCallable)
                                (mkObj 4 KCallable) (mkObj 9 KOther))]} ∅ [])
                (launched_info 4096 (mkObj 2 KCallable) (mkObj 3 KCallable)
                   (mkObj 4 KCallable) (mkObj 9 KOther)))
      as (w' & head & H1 & H2 & H3 & H4 & H5 & H6 & H7); [reflexivity|].
    exists w', head. split; [exact H1|]. split; [exact H2|].
    split; [exact H3|exact H6].
  - destruct (proj1 (proj2 handler_exec_releases_all) sample_env sample_args
                empty_world sample_handle (sample_world sample_tick 0)
                (replicate 8 (ATick 0%N sample_tick)) (sample_world sample_tick 8)
                (mkThread 1%positive pc_exited false true false [])
                wf_empty)
      as (fn & ok & cancel & err & arg & v & before & H1 & H2 & H3 & H4).
    + vm_compute. reflexivity.
    + vm_compute. reflexivity.
    + vm_compute. reflexivity.
    + reflexivity.
    + exists fn, ok, cancel, err, arg, v, before.
      split; [exact H1|]. split; [exact H2|exact H3].
  - apply (proj2 (proj2 handler_exec_releases_all) (ATick 0%N sample_tick)
             (sample_world sample_tick 7) (sample_world sample_tick 8) 0%N
             (mkThread 1%positive pc_handler_ok false true false [])
             (sample_world_wf sample_tick 7)).
    + vm_compute. reflexivity.
    + discriminate.
    + vm_compute. reflexivity.
    + vm_compute. discriminate.
Defined.

(** C8 as stated fails in its last part: [handler_exec] is not the only
    place where a context is destroyed.  Here [do_interruptably] rejects a
    non-callable third argument and frees, at line 211, the context it
    allocated at line 191; no thread exists and the bridge never ran. *)
Lemma context_freed_by_launcher_counterexample :
  do_interruptably sample_env
    [mkObj 1 (KLong 4096); mkObj 2 KCallable; mkObj 3 (KLong 7); mkObj 4 KCallable;
     mkObj 9 KOther] empty_world
  = Some (PyNULL (mkErr PyExc_TypeError "arguments 2, 3, and 4 must be callable"),
          mkWorld ∅ ∅ [(Main, EvMalloc 1%positive); (Main, EvFree 1%positive)]).
Proof. vm_compute. reflexivity. Qed.

(* ================================================================== *)
(** ** Who invokes callbacks                                           *)
(* ================================================================== *)

Lemma calls_of_main_snoc tr evs :
  calls_in evs = [] →
  calls_in (events_of Main (tr ++ map (pair Main) evs)) = calls_in (events_of Main tr).
Proof.
  intros H. by rewrite events_of_snoc_same, calls_in_app, H, app_nil_r.
Qed.

Lemma events_of_all who tr : only_by who tr → events_of who tr = map snd tr.
Proof.
  induction 1 as [|[a e] tr Ha _ IH]; [done|].
  simpl in Ha. subst a. rewrite events_of_cons_same. simpl. by f_equal.
Qed.

Lemma calls_of_main_by tr tr' :
  only_by Main tr' → calls_in (map snd tr') = [] →
  calls_in (events_of Main (tr ++ tr')) = calls_in (events_of Main tr).
Proof.
  intros Hby H.
  by rewrite events_of_app, calls_in_app, (events_of_all _ _ Hby), H, app_nil_r.
Qed.

(** The two module functions invoke no callback. *)
Lemma do_interruptably_no_calls env args w r w' :
  do_interruptably env args w = Some (r, w') →
  calls_in (events_of Main (trace w')) = calls_in (events_of Main (trace w)).
Proof.
  destruct (lo_malloc_info env) eqn:Hm.
  2: { rewrite launch_no_memory by done. by intros; simplify_eq. }
  destruct (PyArg_ParseTuple_LOOOO args) as [[[[[fn a1] a2] a3] a4]|e] eqn:Hp.
  2: { erewrite launch_parse_error by done. intros; simplify_eq.
       by apply calls_of_main_snoc. }
  destruct (all_callable a1 a2 a3) eqn:Hc.
  2: { erewrite launch_not_callable by done. intros; simplify_eq.
       by apply calls_of_main_snoc. }
  destruct (decide (start_failed env = 0)) as [Hf|Hf].
  2: { erewrite launch_start_failed by done. intros; simplify_eq.
       by apply calls_of_main_snoc. }
  erewrite launch_started by done. rewrite make_thread_handle_spec.
  destruct (lo_malloc_handle env); intros; simplify_eq; unfold started_world; simpl.
  - rewrite <- app_assoc. apply calls_of_main_by; [|done].
    repeat apply only_by_cons. apply only_by_nil.
  - apply calls_of_main_by; [|done].
    repeat apply only_by_cons. apply only_by_nil.
Qed.

Lemma interrupt_no_calls args w r w' :
  interrupt args w = Some (r, w') →
  calls_in (events_of Main (trace w')) = calls_in (events_of Main (trace w)).
Proof.
  unfold interrupt. intros H.
  destruct (PyArg_ParseTuple_O args) as [h|e]; [|by inversion H].
  destruct (negb (PyCapsule_CheckExact h)); [by inversion H|].
  destruct (PyCapsule_GetPointer h THREAD_HANDLE_NAME) as [p|e]; [|by inversion H].
  unfold bind, load_tid in H.
  destruct (heap w !! p) as [[| |id]|]; try discriminate.
  destruct (pthread_cancel Main id w) as [[rc w1]|] eqn:Hc; [|discriminate].
  apply pthread_cancel_post in Hc as (_ & Htr & _).
  case_bool_decide; unfold Py_INCREF, emit, ret in H; simpl in H; simplify_eq;
    simpl; rewrite Htr.
  - apply calls_of_main_by; [|done].
    repeat apply only_by_cons. apply only_by_nil.
  - rewrite <- app_assoc. apply calls_of_main_by; [|done].
    repeat apply only_by_cons. apply only_by_nil.
Qed.

Lemma step_main_calls a w w' :
  wf w → step a w = Some (tt, w') →
  calls_in (events_of Main (trace w')) = calls_in (events_of Main (trace w)).
Proof.
  intros Hwf Hstep. destruct a as [env args|args|tid o]; simpl in Hstep.
  - unfold bind, ret in Hstep.
    destruct (do_interruptably env args w) as [[r w1]|] eqn:Hd; [|discriminate].
    simplify_eq. by eapply do_interruptably_no_calls.
  - unfold bind, ret in Hstep.
    destruct (interrupt args w) as [[r w1]|] eqn:Hd; [|discriminate].
    simplify_eq. by eapply interrupt_no_calls.
  - destruct (threads w !! tid) as [t|] eqn:Ht.
    2: { rewrite tick_absent in Hstep by done. by simplify_eq. }
    destruct Hwf as (Hthr & _). destruct (Hthr _ _ Ht) as [ti Hinv].
    destruct (tick_own _ tid o w t ti I Ht Hinv) as (w1 & Hw1 & Hpost).
    rewrite Hw1 in Hstep. simplify_eq.
    destruct Hpost as (t' & tr' & _ & _ & _ & Htr & Hby & _).
    by rewrite Htr, (events_of_only_by _ (Thr tid)).
Qed.

Lemma run_main_calls acts w w' :
  wf w → run acts w = Some (tt, w') →
  calls_in (events_of Main (trace w')) = calls_in (events_of Main (trace w)).
Proof.
  revert w. induction acts as [|a acts IH]; intros w Hwf Hrun.
  - simpl in Hrun. unfold ret in Hrun. by simplify_eq.
  - rewrite run_cons in Hrun.
    destruct (step a w) as [[[] w1]|] eqn:Hs; [|discriminate].
    rewrite (IH w1) by (done || by eapply step_wf). by eapply step_main_calls.
Qed.

(** The callback invocations of a thread: none, or one of [ok_cbak] or
    [cancel_cbak] on the retained argument. *)
Lemma thread_inv_calls (P : TickOracle → Prop) ti w tid t :
  thread_inv P ti w tid t →
  calls_in (events_of (Thr tid) (trace w)) = [] ∨
  calls_in (events_of (Thr tid) (trace w)) = [(ok_cbak ti, [data ti])] ∨
  calls_in (events_of (Thr tid) (trace w)) = [(cancel_cbak ti, [data ti])].
Proof.
  intros (fn & Hfn & Hinv).
  destruct (decide (th_pc t = pc_exited)) as [He|He].
  - destruct Hinv as (o & _ & [Hev|(k & _ & Hev)]); rewrite Hev.
    + destruct (bridge_events_release o ti (th_arg t) (ok_cbak ti))
        as (head & Hhead & _ & Hca).
      destruct (prologue_quiet (th_arg t) fn 7) as [Hq _]. simpl in Hq.
      unfold completed_events. rewrite Hhead, !calls_in_app, Hca.
      unfold prologue.
      destruct (to_build_ok o); simpl; eauto.
    + destruct (bridge_events_release o ti (th_arg t) (cancel_cbak ti))
        as (head & Hhead & _ & Hca).
      unfold cancelled_events.
      destruct (prologue_quiet (th_arg t) fn k) as [Hq _].
      change (EvCancelActed :: ?x) with ([EvCancelActed] ++ x).
      rewrite Hhead, !calls_in_app, Hq, Hca.
      destruct (to_build_ok o); simpl; eauto.
  - destruct Hinv as (_ & Hev & _). rewrite Hev.
    destruct (prologue_quiet (th_arg t) fn (pc_index (th_pc t))) as [-> _]. eauto.
Qed.

(** The events of a call of [do_interruptably] that started a thread. *)
Lemma launch_spawned_trace env fn a1 a2 a3 a4 w r w1 t0 :
  do_interruptably env [fn; a1; a2; a3; a4] w = Some (r, w1) →
  threads w1 !! new_tid w = Some t0 →
  ∃ post,
    trace w1 = trace w ++
      map (pair Main)
        ([EvMalloc (new_block w); EvIncref a1; EvIncref a2; EvIncref a3; EvIncref a4;
          EvThreadCreate (new_tid w) (new_block w)] ++ post) ∧
    (∀ a, retained a post = 0).
Proof.
  intros Hd Ht0. pose proof (new_tid_fresh w) as Hfresh.
  destruct (lo_malloc_info env) eqn:Hm.
  2: { rewrite launch_no_memory in Hd by done. simplify_eq; congruence. }
  destruct (PyArg_ParseTuple_LOOOO [fn; a1; a2; a3; a4])
    as [[[[[v b1] b2] b3] b4]|e] eqn:Hp.
  2: { erewrite launch_parse_error in Hd by done. simplify_eq; simpl in *; congruence. }
  destruct (parse_inv _ _ _ _ _ _ Hp) as (fn' & Heq & _).
  symmetry in Heq. injection Heq as -> -> -> -> ->.
  destruct (all_callable a1 a2 a3) eqn:Hc.
  2: { erewrite launch_not_callable in Hd by done. simplify_eq; simpl in *; congruence. }
  destruct (decide (start_failed env = 0)) as [Hf|Hf].
  2: { erewrite launch_start_failed in Hd by done. simplify_eq; simpl in *; congruence. }
  erewrite launch_started in Hd by done. rewrite make_thread_handle_spec in Hd.
  destruct (lo_malloc_handle env); simplify_eq; unfold started_world; simpl.
  - eexists [EvMalloc _]. split; [by rewrite <- app_assoc|done].
  - exists []. split; [done|done].
Qed.

(** C5: no operation of the system invokes [err_cbak].  The module
    functions invoke nothing; the thread of a launch invokes at most one
    callable, taken from the [ok_cbak] or the [cancel_cbak] field; so the
    object passed as [err_cbak], unless it is also passed as one of those,
    is never called.  It is retained once at launch and released once when
    the thread ends. *)
Theorem err_cbak_never_invoked
    (env : LaunchOracle) (fn ok cancel err arg : PyObject) (w : World)
    (r : PyResult) (w1 : World) (t0 : Thread) (acts : list Action) (w2 : World) :
  wf w →
  do_interruptably env [fn; ok; cancel; err; arg] w = Some (r, w1) →
  threads w1 !! new_tid w = Some t0 →
  run acts w1 = Some (tt, w2) →
  calls_in (events_of Main (trace w2)) = calls_in (events_of Main (trace w)) ∧
  (calls_in (events_of (Thr (new_tid w)) (trace w2)) = [] ∨
   calls_in (events_of (Thr (new_tid w)) (trace w2)) = [(ok, [arg])] ∨
   calls_in (events_of (Thr (new_tid w)) (trace w2)) = [(cancel, [arg])]) ∧
  (err ≠ ok → err ≠ cancel →
   ∀ a, (err, a) ∉ calls_in (events_of (Thr (new_tid w)) (trace w2))) ∧
  (∃ pre post, trace w1 = trace w ++ pre ++ [(Main, EvIncref err)] ++ post) ∧
  (∀ t, threads w2 !! new_tid w = Some t → th_pc t = pc_exited →
        EvDecref err ∈ events_of (Thr (new_tid w)) (trace w2)).
Proof.
  intros Hwf Hd Ht0 Hrun.
  assert (wf w1) as Hwf1.
  { eapply main_step_wf; [done|]. by eapply do_interruptably_post. }
  destruct (launch_thread_inv (λ _, True) _ _ _ _ _ _ acts w2 Hwf Hd Ht0)
    as (fn' & v & a1 & a2 & a3 & a4 & t & Heq & Hk & Ht & Ha & Hinv);
    [by apply Forall_forall | done |].
  simplify_eq.
  pose proof (thread_inv_calls _ _ _ _ _ Hinv) as Hcalls.
  cbn [ok_cbak cancel_cbak data launched_info] in Hcalls.
  split_and!.
  - rewrite (run_main_calls _ _ _ Hwf1 Hrun).
    by eapply do_interruptably_no_calls.
  - done.
  - intros Hne1 Hne2 a Hin.
    destruct Hcalls as [Hc|[Hc|Hc]]; rewrite Hc in Hin.
    + by apply elem_of_nil in Hin.
    + apply list_elem_of_singleton in Hin. congruence.
    + apply list_elem_of_singleton in Hin. congruence.
  - destruct (launch_spawned_trace _ _ _ _ _ _ _ _ _ _ Hd Ht0) as (post & Htr & _).
    exists [(Main, EvMalloc (new_block w)); (Main, EvIncref a1); (Main, EvIncref a2)],
      ((Main, EvIncref a4) :: (Main, EvThreadCreate (new_tid w) (new_block w))
         :: map (pair Main) post).
    by rewrite Htr.
  - intros t' Ht' He. simplify_eq.
    destruct (thread_inv_exited_release _ _ _ _ _ Hinv He) as (before & -> & _).
    apply elem_of_app. right. unfold release_events. simpl.
    do 2 apply list_elem_of_further. apply list_elem_of_here.
Qed.

Lemma err_cbak_never_invoked_witness :
  calls_in (events_of Main (trace (sample_world sample_tick 8))) =
    calls_in (events_of Main (trace empty_world)) ∧
  (calls_in (events_of (Thr (new_tid empty_world)) (trace (sample_world sample_tick 8))) = [] ∨
   calls_in (events_of (Thr (new_tid empty_world)) (trace (sample_world sample_tick 8))) =
     [(mkObj 2 KCallable, [mkObj 9 KOther])] ∨
   calls_in (events_of (Thr (new_tid empty_world)) (trace (sample_world sample_tick 8))) =
     [(mkObj 3 KCallable, [mkObj 9 KOther])]) ∧
  (mkObj 4 KCallable ≠ mkObj 2 KCallable → mkObj 4 KCallable ≠ mkObj 3 KCallable →
   ∀ a, (mkObj 4 KCallable, a) ∉
          calls_in (events_of (Thr (new_tid empty_world))
                      (trace (sample_world sample_tick 8)))) ∧
  (∃ pre post, trace (sample_world sample_tick 0) =
                 trace empty_world ++ pre ++ [(Main, EvIncref (mkObj 4 KCallable))] ++ post) ∧
  (∀ t, threads (sample_world sample_tick 8) !! new_tid empty_world = Some t →
        th_pc t = pc_exited →
        EvDecref (mkObj 4 KCallable) ∈
          events_of (Thr (new_tid empty_world)) (trace (sample_world sample_tick 8))).
Proof.
  apply (err_cbak_never_invoked sample_env (mkObj 1 (KLong 4096)) (mkObj 2 KCallable)
           (mkObj 3 KCallable) (mkObj 4 KCallable) (mkObj 9 KOther) empty_world
           (PyOk sample_handle) (sample_world sample_tick 0)
           (initial_thread 1%positive) (replicate 8 (ATick 0%N sample_tick))
           (sample_world sample_tick 8) wf_empty).
  - vm_compute. reflexivity.
  - vm_compute. reflexivity.
  - vm_compute. reflexivity.
Defined.

(* ================================================================== *)
(** ** Cancellation inside the window                                  *)
(* ================================================================== *)

Opaque bridge_events.


Transparent bridge_events.

Lemma main_step_events w w' tid :
  main_step_post w w' →
  events_of (Thr tid) (trace w') = events_of (Thr tid) (trace w).
Proof.
  intros ((tr' & Htr & Hby) & _). by rewrite Htr, (events_of_only_by _ Main).
Qed.




(** [interrupt] on the handle of a thread that has not ended succeeds and
    leaves the request pending on that thread. *)
Lemma interrupt_lands h p tid t w :
  ob_kind h = KCapsule p (Some THREAD_HANDLE_NAME) →
  heap w !! p = Some (BThreadId tid) →
  threads w !! tid = Some t →
  th_pc t ≠ pc_exited →
  ∃ w', interrupt [h] w = Some (PyOk Py_None, w') ∧
        threads w' !! tid =
          Some (mkThread (th_arg t) (th_pc t) (th_cancelstate t) (th_canceltype t)
                         true (th_cleanup t)).
Proof.
  intros Hk Hp Ht Hrun.
  unfold interrupt, PyCapsule_CheckExact, PyCapsule_GetPointer. simpl.
  rewrite Hk. simpl.
  unfold bind, load_tid, pthread_cancel. rewrite Hp, Ht.
  rewrite bool_decide_eq_false_2 by done. simpl.
  eexists. split; [reflexivity|]. simpl. by rewrite lookup_insert_eq.
Qed.



(* ================================================================== *)
(** ** The entry point                                                 *)
(* ================================================================== *)

(** The only routine a thread ever enters is the one stored in its
    context. *)
Lemma thread_inv_routine (P : TickOracle → Prop) ti w tid t f :
  thread_inv P ti w tid t →
  EvRoutineEnter f ∈ events_of (Thr tid) (trace w) →
  routine ti = Some f.
Proof.
  intros (fn & Hfn & Hinv) Hin.
  assert (∀ k, EvRoutineEnter f ∈ take k (prologue (th_arg t) fn) → f = fn) as Hpro.
  { intros k Hk. do 8 (destruct k as [|k]; simpl in Hk;
      [repeat (apply elem_of_cons in Hk as [Hk|Hk]; [by simplify_eq|]);
       by apply elem_of_nil in Hk|]).
    repeat (apply elem_of_cons in Hk as [Hk|Hk]; [by simplify_eq|]).
    by apply elem_of_nil in Hk. }
  assert (∀ o cb, EvRoutineEnter f ∉ bridge_events o ti (th_arg t) cb) as Hbr.
  { intros o cb Hb. unfold bridge_events in Hb.
    destruct (to_build_ok o), (to_call_result o); simpl in Hb;
      repeat (apply elem_of_cons in Hb as [Hb|Hb]; [discriminate|]);
      by apply elem_of_nil in Hb. }
  destruct (decide (th_pc t = pc_exited)) as [He|He].
  - destruct Hinv as (o & _ & [Hev|(k & _ & Hev)]); rewrite Hev in Hin.
    + apply elem_of_app in Hin as [Hin|Hin]; [|by apply Hbr in Hin].
      rewrite (Hpro 7%nat); done.
    + apply elem_of_app in Hin as [Hin|Hin]; [by rewrite (Hpro k)|].
      apply elem_of_cons in Hin as [Hin|Hin]; [discriminate|].
      by apply Hbr in Hin.
  - destruct Hinv as (_ & Hev & _). rewrite Hev in Hin. by rewrite (Hpro _ Hin).
Qed.

(** C10, as amended: the first argument is converted as format [L] does,
    with [PyLong_AsLongLong]: an [int] gives its value, any other object
    is asked for its [__index__].  If the conversion fails, the call fails
    in [PyArg_ParseTuple], having only allocated and freed the context: no
    reference is taken and no thread created; the error is
    [OverflowError] for a value outside [long long], the exception of an
    [__index__] that raises, and [TypeError] for an object that is no
    [int] and has no [__index__].  If the conversion succeeds, and the
    call gets as far as starting the thread, the context handed to the
    thread holds exactly the converted value as [routine], and it is the
    only routine the thread ever enters. *)
Theorem entry_point_parsed_as_long_long :
  (∀ env fn rest w,
     lo_malloc_info env = true →
     (∀ v, PyLong_AsLongLong fn ≠ inl v) →
     ∃ e, do_interruptably env (fn :: rest) w =
            Some (PyNULL e,
                  mkWorld (heap w) (threads w)
                    (trace w ++ [(Main, EvMalloc (new_block w));
                                 (Main, EvFree (new_block w))])) ∧
          (length rest ≠ 4%nat → err_type e = PyExc_TypeError) ∧
          (length rest = 4%nat →
           match ob_kind fn with
           | KLong v | KIndex (inl v) =>
               ¬ (LLONG_MIN ≤ v ≤ LLONG_MAX) ∧ err_type e = PyExc_OverflowError
           | KIndex (inr e') => e = e'
           | _ => err_type e = PyExc_TypeError
           end)) ∧
  (∀ env fn v a1 a2 a3 a4 w,
     wf w →
     lo_malloc_info env = true →
     PyLong_AsLongLong fn = inl v →
     all_callable a1 a2 a3 = true →
     start_failed env = 0 →
     LLONG_MIN ≤ v ≤ LLONG_MAX ∧
     (ob_kind fn = KLong v ∨ ob_kind fn = KIndex (inl v)) ∧
     ∃ r w',
       do_interruptably env [fn; a1; a2; a3; a4] w = Some (r, w') ∧
       heap w' !! new_block w = Some (BThreadInfo (mkThreadInfo a1 a2 a3 a4 (Some v))) ∧
       threads w' !! new_tid w = Some (initial_thread (new_block w)) ∧
       ∀ acts w'' f,
         run acts w' = Some (tt, w'') →
         EvRoutineEnter f ∈ events_of (Thr (new_tid w)) (trace w'') →
         f = v).
Proof.
  split.
  - intros env fn rest w Hm Hno.
    destruct (PyLong_AsLongLong fn) as [v|e] eqn:Hfn; [by destruct (Hno v)|].
    destruct (parse_first_rejected fn rest e Hfn) as (e' & Hp & He & Hlen).
    exists e'. split; [by apply launch_parse_error|]. split; [done|].
    intros H4. rewrite (He H4). apply PyLong_AsLongLong_error in Hfn.
    destruct (ob_kind fn) as [v| | | | |[v|e0]]; done.
  - intros env fn v a1 a2 a3 a4 w Hwf Hm Hfn Hc Hf.
    split; [by eapply PyLong_AsLongLong_range|]. split.
    { unfold PyLong_AsLongLong, PyNumber_Index in Hfn.
      destruct (ob_kind fn) as [v'| | | | |[v'|e']]; try done;
        case_bool_decide; simplify_eq; eauto. }
    assert (PyArg_ParseTuple_LOOOO [fn; a1; a2; a3; a4] = inl (v, a1, a2, a3, a4))
      as Hp by (by rewrite parse_five, Hfn).
    destruct (launch_total env [fn; a1; a2; a3; a4] w) as (r & w' & Hd).
    exists r, w'. split; [done|].
    assert (threads w' !! new_tid w = Some (initial_thread (new_block w))) as Ht0.
    { pose proof Hd as Hd'. erewrite launch_started in Hd' by done.
      rewrite make_thread_handle_spec in Hd'.
      destruct (lo_malloc_handle env); simplify_eq; simpl; by rewrite lookup_insert_eq. }
    destruct (launch_spawned (λ _, True) _ _ _ _ _ _ Hwf Hd Ht0)
      as (fn' & v' & b1 & b2 & b3 & b4 & Heq & Hk & _ & _ & _ & Hinv).
    symmetry in Heq. injection Heq as -> -> -> -> ->.
    rewrite Hfn in Hk. injection Hk as <-.
    split; [by apply (running_owns_context _ _ _ _ _ Hinv)|]. split; [done|].
    intros acts w'' f Hrun Hin.
    destruct (launch_thread_inv (λ _, True) _ _ _ _ _ _ acts w'' Hwf Hd Ht0)
      as (fn'' & v'' & c1 & c2 & c3 & c4 & t & Heq & Hk & Ht & _ & Hinv');
      [by apply Forall_forall | done |].
    symmetry in Heq. injection Heq as -> -> -> -> ->.
    rewrite Hfn in Hk. injection Hk as <-.
    pose proof (thread_inv_routine _ _ _ _ _ _ Hinv' Hin) as Hr.
    simpl in Hr. by simplify_eq.
Qed.

Lemma entry_point_parsed_as_long_long_witness :
  (∃ e, do_interruptably sample_env
          (mkObj 1 (KLong (2 ^ 63)) :: [mkObj 2 KCallable; mkObj 3 KCallable;
                                         mkObj 4 KCallable; mkObj 9 KOther])
          empty_world =
          Some (PyNULL e,
                mkWorld (heap empty_world) (threads empty_world)
                  (trace empty_world ++ [(Main, EvMalloc (new_block empty_world));
                                         (Main, EvFree (new_block empty_world))])) ∧
        (length [mkObj 2 KCallable; mkObj 3 KCallable; mkObj 4 KCallable;
                 mkObj 9 KOther] ≠ 4%nat → err_type e = PyExc_TypeError) ∧
        (length [mkObj 2 KCallable; mkObj 3 KCallable; mkObj 4 KCallable;
                 mkObj 9 KOther] = 4%nat →
         match ob_kind (mkObj 1 (KLong (2 ^ 63))) with
         | KLong v | KIndex (inl v) =>
             ¬ (LLONG_MIN ≤ v ≤ LLONG_MAX) ∧ err_type e = PyExc_OverflowError
         | KIndex (inr e') => e = e'
         | _ => err_type e = PyExc_TypeError
         end)) ∧
  (LLONG_MIN ≤ 4096 ≤ LLONG_MAX ∧
   (ob_kind (mkObj 1 (KIndex (inl 4096))) = KLong 4096 ∨
    ob_kind (mkObj 1 (KIndex (inl 4096))) = KIndex (inl 4096)) ∧
   ∃ r w',
     do_interruptably sample_env
       [mkObj 1 (KIndex (inl 4096)); mkObj 2 KCallable; mkObj 3 KCallable;
        mkObj 4 KCallable; mkObj 9 KOther] empty_world = Some (r, w') ∧
     heap w' !! new_block empty_world =
       Some (BThreadInfo (mkThreadInfo (mkObj 2 KCallable) (mkObj 3 KCallable)
                            (mkObj 4 KCallable) (mkObj 9 KOther) (Some 4096))) ∧
     threads w' !! new_tid empty_world = Some (initial_thread (new_block empty_world)) ∧
     ∀ acts w'' f,
       run acts w' = Some (tt, w'') →
       EvRoutineEnter f ∈ events_of (Thr (new_tid empty_world)) (trace w'') →
       f = 4096).
Proof.
  split.
  - apply (proj1 entry_point_parsed_as_long_long sample_env (mkObj 1 (KLong (2 ^ 63)))
             [mkObj 2 KCallable; mkObj 3 KCallable; mkObj 4 KCallable; mkObj 9 KOther]
             empty_world).
    + reflexivity.
    + intros v Hv. vm_compute in Hv. discriminate.
  - apply (proj2 entry_point_parsed_as_long_long sample_env
             (mkObj 1 (KIndex (inl 4096))) 4096
             (mkObj 2 KCallable) (mkObj 3 KCallable) (mkObj 4 KCallable)
             (mkObj 9 KOther) empty_world wf_empty).
    + reflexivity.
    + reflexivity.
    + reflexivity.
    + reflexivity.
Defined.

(** C10 as stated fails: a first argument that is not an integer, but
    whose [__index__] returns [4096], does not fail during argument
    parsing; the launch starts a thread whose routine is [4096]. *)
Lemma non_integer_entry_point_counterexample :
  (∀ v, ob_kind (mkObj 1 (KIndex (inl 4096))) ≠ KLong v) ∧
  PyArg_ParseTuple_LOOOO
    [mkObj 1 (KIndex (inl 4096)); mkObj 2 KCallable; mkObj 3 KCallable;
     mkObj 4 KCallable; mkObj 9 KOther]
  = inl (4096, mkObj 2 KCallable, mkObj 3 KCallable, mkObj 4 KCallable,
         mkObj 9 KOther) ∧
  ∃ w',
    do_interruptably sample_env
      [mkObj 1 (KIndex (inl 4096)); mkObj 2 KCallable; mkObj 3 KCallable;
       mkObj 4 KCallable; mkObj 9 KOther] empty_world = Some (PyOk sample_handle, w') ∧
    threads w' !! 0%N = Some (initial_thread 1%positive) ∧
    heap w' !! 1%positive =
      Some (BThreadInfo (launched_info 4096 (mkObj 2 KCallable) (mkObj 3 KCallable)
                           (mkObj 4 KCallable) (mkObj 9 KOther))) ∧
    ¬ (∃ e w'',
         do_interruptably sample_env
           [mkObj 1 (KIndex (inl 4096)); mkObj 2 KCallable; mkObj 3 KCallable;
            mkObj 4 KCallable; mkObj 9 KOther] empty_world = Some (PyNULL e, w'')).
Proof.
  split; [discriminate|].
  split; [vm_compute; reflexivity|].
  eexists. split; [vm_compute; reflexivity|].
  split; [vm_compute; reflexivity|].
  split; [vm_compute; reflexivity|].
  intros (e & w'' & He). vm_compute in He. discriminate.
Qed.

(** C2 fails on the code.  When [pthread_create] fails (here with
    [EAGAIN]) the context is freed and no thread exists, but the four
    references taken at lines 216-219 are never given back.  When the
    thread has been created and the handle record cannot be allocated,
    [do_interruptably] returns the error while the thread is left running
    with its context. *)
Theorem launch_error_paths_leak :
  do_interruptably (mkLaunchOracle true 0 0 EAGAIN true (Some 50%N)) sample_args
    empty_world
  = Some (PyNULL (mkErr PyExc_SystemError
                    "system could not allocate resources for a new thread"),
          mkWorld ∅ ∅
            (map (pair Main)
               [EvMalloc 1%positive; EvIncref (mkObj 2 KCallable);
                EvIncref (mkObj 3 KCallable); EvIncref (mkObj 4 KCallable);
                EvIncref (mkObj 9 KOther); EvFree 1%positive])) ∧
  retained 9
    [EvMalloc 1%positive; EvIncref (mkObj 2 KCallable); EvIncref (mkObj 3 KCallable);
     EvIncref (mkObj 4 KCallable); EvIncref (mkObj 9 KOther); EvFree 1%positive] = 1 ∧
  ∃ w',
    do_interruptably (mkLaunchOracle true 0 0 0 false None) sample_args empty_world
    = Some (PyNULL (mkErr PyExc_MemoryError ""), w') ∧
    threads w' !! 0%N = Some (initial_thread 1%positive) ∧
    heap w' !! 1%positive =
      Some (BThreadInfo (launched_info 4096 (mkObj 2 KCallable) (mkObj 3 KCallable)
                           (mkObj 4 KCallable) (mkObj 9 KOther))).
Proof.
  split; [vm_compute; reflexivity|].
  split; [reflexivity|].
  eexists. split; [vm_compute; reflexivity|].
  split; vm_compute; reflexivity.
Qed.

(* ================================================================== *)
(** ** Handles: from the launch to the cancellation request            *)
(* ================================================================== *)

(** [interrupt] on a tagged capsule whose record names a thread that has
    not ended: this is all it does. *)
Lemma interrupt_success_spec h p tid t w :
  ob_kind h = KCapsule p (Some THREAD_HANDLE_NAME) →
  heap w !! p = Some (BThreadId tid) →
  threads w !! tid = Some t →
  th_pc t ≠ pc_exited →
  interrupt [h] w =
    Some (PyOk Py_None,
          mkWorld (heap w)
            (<[tid := mkThread (th_arg t) (th_pc t) (th_cancelstate t)
                               (th_canceltype t) true (th_cleanup t)]> (threads w))
            (trace w ++ [(Main, EvPthreadCancel tid 0); (Main, EvIncref Py_None)])).
Proof.
  intros Hk Hp Ht Hrun.
  unfold interrupt, PyCapsule_CheckExact, PyCapsule_GetPointer. simpl.
  rewrite Hk. simpl.
  unfold bind, load_tid, pthread_cancel. rewrite Hp, Ht.
  rewrite bool_decide_eq_false_2 by done. simpl.
  by rewrite <- app_assoc.
Qed.

(** No step of the system frees or overwrites the record of a handle. *)
Lemma step_keeps_record a w w' q id :
  wf w →
  heap w !! q = Some (BThreadId id) →
  step a w = Some (tt, w') →
  heap w' !! q = Some (BThreadId id).
Proof.
  intros Hwf Hq Hstep.
  destruct a as [env args|args|tid o]; simpl in Hstep.
  - unfold bind, ret in Hstep.
    destruct (do_interruptably env args w) as [[r w1]|] eqn:Hd; [|discriminate].
    simplify_eq. apply do_interruptably_post in Hd as (_ & Hheap & _). by apply Hheap.
  - unfold bind, ret in Hstep.
    destruct (interrupt args w) as [[r w1]|] eqn:Hd; [|discriminate].
    simplify_eq. apply interrupt_post in Hd as (_ & Hheap & _). by apply Hheap.
  - destruct (threads w !! tid) as [t|] eqn:Ht.
    2: { rewrite tick_absent in Hstep by done. by simplify_eq. }
    pose proof Hwf as (Hthr & _). destruct (Hthr _ _ Ht) as [ti Hinv].
    destruct (tick_own _ tid o w t ti I Ht Hinv) as (w1 & Hw1 & Hpost).
    rewrite Hw1 in Hstep. simplify_eq.
    destruct Hpost as (t' & tr' & _ & _ & _ & _ & _ & _ & Hheap).
    destruct Hheap as [[-> _]|(-> & Hrun & _)]; [done|].
    rewrite lookup_delete_ne; [done|].
    intros Heq. pose proof (running_owns_context _ _ _ _ _ Hinv Hrun) as Hown.
    rewrite Heq, Hq in Hown. discriminate.
Qed.

Lemma run_keeps_record acts w w' q id :
  wf w →
  heap w !! q = Some (BThreadId id) →
  run acts w = Some (tt, w') →
  heap w' !! q = Some (BThreadId id).
Proof.
  revert w. induction acts as [|a acts IH]; intros w Hwf Hq Hrun.
  - simpl in Hrun. unfold ret in Hrun. by simplify_eq.
  - rewrite run_cons in Hrun.
    destruct (step a w) as [[[] w1]|] eqn:Hs; [|discriminate].
    eapply (IH w1); [by eapply step_wf | by eapply step_keeps_record | done].
Qed.

(** Threads are never removed from the table, and a thread that has ended
    stays so. *)
Lemma run_keeps_thread acts w w' tid t :
  wf w →
  threads w !! tid = Some t →
  run acts w = Some (tt, w') →
  ∃ t', threads w' !! tid = Some t' ∧ th_arg t' = th_arg t.
Proof.
  intros Hwf Ht Hrun. pose proof Hwf as (Hthr & _).
  destruct (Hthr _ _ Ht) as [ti Hinv].
  destruct (run_thread_inv (λ _, True) acts w w' tid t ti Hwf Ht Hinv) as (t' & Ht' & Ha & _);
    [by apply Forall_forall | done |]. eauto.
Qed.

(** X1: the handle a launch returns carries the private tag, and at any
    later time at which the thread has not ended, [interrupt] on it
    succeeds with [None]: it leaves the request pending on exactly the
    thread of that launch and changes no other thread and no heap block. *)
Theorem handle_cancels_its_thread
    (env : LaunchOracle) (args : list PyObject) (w : World) (h : PyObject)
    (w1 : World) (acts : list Action) (w2 : World) (t : Thread) :
  wf w →
  do_interruptably env args w = Some (PyOk h, w1) →
  run acts w1 = Some (tt, w2) →
  threads w2 !! new_tid w = Some t →
  th_pc t ≠ pc_exited →
  has_tag h = true ∧
  ∃ w3, interrupt [h] w2 = Some (PyOk Py_None, w3) ∧
        heap w3 = heap w2 ∧
        threads w3 =
          <[new_tid w := mkThread (th_arg t) (th_pc t) (th_cancelstate t)
                                  (th_canceltype t) true (th_cleanup t)]> (threads w2).
Proof.
  intros Hwf Hd Hrun Ht Hlive.
  destruct (launch_ok_spawned _ _ _ _ _ Hd) as (_ & q & Hk & Hq).
  assert (wf w1) as Hwf1.
  { eapply main_step_wf; [done|]. by eapply do_interruptably_post. }
  pose proof (run_keeps_record _ _ _ _ _ Hwf1 Hq Hrun) as Hq2.
  split; [apply has_tag_true; eauto|].
  eexists. split; [by apply (interrupt_success_spec h q (new_tid w) t)|]. done.
Qed.

Lemma handle_cancels_its_thread_witness :
  has_tag sample_handle = true ∧
  ∃ w3, interrupt [sample_handle] (sample_world sample_tick 4) = Some (PyOk Py_None, w3) ∧
        heap w3 = heap (sample_world sample_tick 4) ∧
        threads w3 =
          <[new_tid empty_world :=
              mkThread 1%positive pc_in_routine true true true
                       [(H_nativethread_cancel_handler, 1%positive)]]>
            (threads (sample_world sample_tick 4)).
Proof.
  apply (handle_cancels_its_thread sample_env sample_args empty_world sample_handle
           (sample_world sample_tick 0) (replicate 4 (ATick 0%N sample_tick))
           (sample_world sample_tick 4)
           (mkThread 1%positive pc_in_routine true true false
                     [(H_nativethread_cancel_handler, 1%positive)]) wf_empty).
  - vm_compute. reflexivity.
  - vm_compute. reflexivity.
  - vm_compute. reflexivity.
  - discriminate.
Defined.

(** X3: cancelling twice is harmless.  While the thread has not acted on
    the first request, a second [interrupt] on the same handle succeeds as
    well and leaves heap and threads exactly as the first one left them. *)
Theorem interrupt_twice
    (h : PyObject) (p : addr) (tid : pthread_t) (t : Thread) (w : World) :
  ob_kind h = KCapsule p (Some THREAD_HANDLE_NAME) →
  heap w !! p = Some (BThreadId tid) →
  threads w !! tid = Some t →
  th_pc t ≠ pc_exited →
  ∃ w1 w2,
    interrupt [h] w = Some (PyOk Py_None, w1) ∧
    interrupt [h] w1 = Some (PyOk Py_None, w2) ∧
    heap w2 = heap w1 ∧ threads w2 = threads w1.
Proof.
  intros Hk Hp Ht Hlive.
  eexists _, _. split; [by apply (interrupt_success_spec h p tid t)|].
  split.
  - apply (interrupt_success_spec h p tid
             (mkThread (th_arg t) (th_pc t) (th_cancelstate t) (th_canceltype t)
                       true (th_cleanup t))); try done.
    simpl. by rewrite lookup_insert_eq.
  - simpl. split; [done|]. by rewrite insert_insert_eq.
Qed.

Lemma interrupt_twice_witness :
  ∃ w1 w2,
    interrupt [sample_handle] (sample_world sample_tick 4) = Some (PyOk Py_None, w1) ∧
    interrupt [sample_handle] w1 = Some (PyOk Py_None, w2) ∧
    heap w2 = heap w1 ∧ threads w2 = threads w1.
Proof.
  apply (interrupt_twice sample_handle 2%positive 0%N
           (mkThread 1%positive pc_in_routine true true false
                     [(H_nativethread_cancel_handler, 1%positive)])
           (sample_world sample_tick 4)).
  - reflexivity.
  - vm_compute. reflexivity.
  - vm_compute. reflexivity.
  - discriminate.
Defined.

(* ================================================================== *)
(** ** References and handle records over a whole launch               *)
(* ================================================================== *)

Lemma retained_launch a ti p tid post :
  (∀ b, retained b post = 0) →
  retained a ([EvMalloc p; EvIncref (ok_cbak ti); EvIncref (cancel_cbak ti);
               EvIncref (err_cbak ti); EvIncref (data ti); EvThreadCreate tid p]
              ++ post) = occurrences a ti.
Proof.
  intros Hpost. rewrite retained_app, Hpost.
  unfold occurrences. simpl. rewrite !filter_cons, filter_nil.
  repeat case_bool_decide; repeat case_decide; simpl; try done; try lia.
Qed.

(** X4: references balance over a launch.  The call that starts a thread
    takes one reference for each of the four fields of the context, and
    the thread, however it ends and whatever the callback does, gives back
    exactly those: for every object the two counts cancel. *)
Theorem launch_references_balance
    (env : LaunchOracle) (fn a1 a2 a3 a4 : PyObject) (w : World) (r : PyResult)
    (w1 : World) (t0 : Thread) (acts : list Action) (w2 : World) (t : Thread) :
  wf w →
  do_interruptably env [fn; a1; a2; a3; a4] w = Some (r, w1) →
  threads w1 !! new_tid w = Some t0 →
  run acts w1 = Some (tt, w2) →
  threads w2 !! new_tid w = Some t →
  th_pc t = pc_exited →
  ∃ v evs,
    trace w1 = trace w ++ map (pair Main) evs ∧
    ∀ a, retained a evs = occurrences a (launched_info v a1 a2 a3 a4) ∧
         retained a (events_of (Thr (new_tid w)) (trace w2)) =
           - occurrences a (launched_info v a1 a2 a3 a4) ∧
         retained a evs + retained a (events_of (Thr (new_tid w)) (trace w2)) = 0.
Proof.
  intros Hwf Hd Ht0 Hrun Ht He.
  destruct (launch_thread_inv (λ _, True) _ _ _ _ _ _ acts w2 Hwf Hd Ht0)
    as (fn' & v & b1 & b2 & b3 & b4 & t' & Heq & Hk & Ht' & Ha & Hinv);
    [by apply Forall_forall | done |].
  symmetry in Heq. injection Heq as -> -> -> -> ->. simplify_eq.
  destruct (launch_spawned_trace _ _ _ _ _ _ _ _ _ _ Hd Ht0) as (post & Htr & Hpost).
  destruct (thread_inv_exited_release _ _ _ _ _ Hinv He) as (before & _ & _ & Hrel).
  eexists v, _. split; [exact Htr|]. intros a.
  pose proof (retained_launch a (launched_info v a1 a2 a3 a4) (new_block w)
                (new_tid w) post Hpost) as Hl.
  cbn [ok_cbak cancel_cbak err_cbak data launched_info] in Hl.
  rewrite Hl, Hrel. split_and!; [done..|lia].
Qed.

Lemma launch_references_balance_witness :
  ∃ v evs,
    trace (sample_world sample_tick 0) = trace empty_world ++ map (pair Main) evs ∧
    ∀ a, retained a evs =
           occurrences a (launched_info v (mkObj 2 KCallable) (mkObj 3 KCallable)
                            (mkObj 4 KCallable) (mkObj 9 KOther)) ∧
         retained a (events_of (Thr (new_tid empty_world))
                       (trace (sample_world sample_tick 8))) =
           - occurrences a (launched_info v (mkObj 2 KCallable) (mkObj 3 KCallable)
                              (mkObj 4 KCallable) (mkObj 9 KOther)) ∧
         retained a evs +
         retained a (events_of (Thr (new_tid empty_world))
                       (trace (sample_world sample_tick 8))) = 0.
Proof.
  apply (launch_references_balance sample_env (mkObj 1 (KLong 4096))
           (mkObj 2 KCallable) (mkObj 3 KCallable) (mkObj 4 KCallable) (mkObj 9 KOther)
           empty_world (PyOk sample_handle) (sample_world sample_tick 0)
           (initial_thread 1%positive) (replicate 8 (ATick 0%N sample_tick))
           (sample_world sample_tick 8)
           (mkThread 1%positive pc_exited false true false []) wf_empty).
  - vm_compute. reflexivity.
  - vm_compute. reflexivity.
  - vm_compute. reflexivity.
  - vm_compute. reflexivity.
  - reflexivity.
Defined.

(** X5: when the thread cannot be started, because [pthread_attr_init],
    [pthread_attr_setdetachstate] or [pthread_create] returns non-zero,
    [do_interruptably] creates no thread and frees the context, and the
    error tells the causes apart: [MemoryError] exactly for [ENOMEM],
    [SystemError] otherwise, with a message of its own for [EAGAIN] and
    for [EPERM]. *)
Theorem thread_start_failure
    (env : LaunchOracle) (a : N) (v : Z) (a1 a2 a3 a4 : PyObject) (w : World) :
  lo_malloc_info env = true →
  LLONG_MIN ≤ v ≤ LLONG_MAX →
  all_callable a1 a2 a3 = true →
  start_failed env ≠ 0 →
  ∃ e w',
    do_interruptably env [mkObj a (KLong v); a1; a2; a3; a4] w = Some (PyNULL e, w') ∧
    heap w' = heap w ∧ threads w' = threads w ∧
    (err_type e = PyExc_MemoryError ↔ start_failed env = ENOMEM) ∧
    (err_type e = PyExc_SystemError ↔ start_failed env ≠ ENOMEM) ∧
    (start_failed env = EAGAIN →
     err_msg e = "system could not allocate resources for a new thread") ∧
    (start_failed env = EPERM →
     err_msg e = "could not start thread: insufficient permissions") ∧
    (start_failed env ≠ ENOMEM → start_failed env ≠ EAGAIN → start_failed env ≠ EPERM →
     err_msg e = "could not start system thread").
Proof.
  intros Hm Hv Hc Hf.
  pose proof (parse_accepted a v a1 a2 a3 a4 Hv) as Hp.
  erewrite launch_start_failed by done.
  eexists _, _. split; [done|]. simpl. do 2 (split; [done|]).
  unfold thread_start_error, ENOMEM, EAGAIN, EPERM.
  repeat case_bool_decide; simpl; split_and!; try split; intros; try done; try lia.
Qed.

Lemma thread_start_failure_witness :
  ∃ e w',
    do_interruptably (mkLaunchOracle true 0 EPERM 0 true (Some 50%N))
      [mkObj 1 (KLong 4096); mkObj 2 KCallable; mkObj 3 KCallable; mkObj 4 KCallable;
       mkObj 9 KOther] empty_world = Some (PyNULL e, w') ∧
    heap w' = heap empty_world ∧ threads w' = threads empty_world ∧
    (err_type e = PyExc_MemoryError ↔
     start_failed (mkLaunchOracle true 0 EPERM 0 true (Some 50%N)) = ENOMEM) ∧
    (err_type e = PyExc_SystemError ↔
     start_failed (mkLaunchOracle true 0 EPERM 0 true (Some 50%N)) ≠ ENOMEM) ∧
    (start_failed (mkLaunchOracle true 0 EPERM 0 true (Some 50%N)) = EAGAIN →
     err_msg e = "system could not allocate resources for a new thread") ∧
    (start_failed (mkLaunchOracle true 0 EPERM 0 true (Some 50%N)) = EPERM →
     err_msg e = "could not start thread: insufficient permissions") ∧
    (start_failed (mkLaunchOracle true 0 EPERM 0 true (Some 50%N)) ≠ ENOMEM →
     start_failed (mkLaunchOracle true 0 EPERM 0 true (Some 50%N)) ≠ EAGAIN →
     start_failed (mkLaunchOracle true 0 EPERM 0 true (Some 50%N)) ≠ EPERM →
     err_msg e = "could not start system thread").
Proof.
  apply (thread_start_failure (mkLaunchOracle true 0 EPERM 0 true (Some 50%N))
           1%N 4096 (mkObj 2 KCallable) (mkObj 3 KCallable) (mkObj 4 KCallable)
           (mkObj 9 KOther) empty_world).
  - reflexivity.
  - unfold LLONG_MIN, LLONG_MAX. lia.
  - reflexivity.
  - vm_compute. discriminate.
Defined.

(** X6: a handle made by [make_thread_handle] resolves to the identifier it
    was made for, and its destructor [destroy_thread_handle] frees exactly
    the record the handle holds: the heap is again as before the handle
    was made.  On a capsule without the tag the destructor frees nothing. *)
Theorem handle_make_destroy :
  (∀ who who' env id w h w1,
     make_thread_handle who env id w = Some (PyOk h, w1) →
     ∃ q w2,
       PyCapsule_GetPointer h THREAD_HANDLE_NAME = inl q ∧
       load_tid q w1 = Some (id, w1) ∧
       destroy_thread_handle who' h w1 = Some (tt, w2) ∧
       heap w2 = heap w ∧ threads w2 = threads w) ∧
  (∀ who h w, has_tag h = false → destroy_thread_handle who h w = Some (tt, w)).
Proof.
  split.
  - intros who who' env id w h w1 Hmk.
    rewrite make_thread_handle_spec in Hmk.
    destruct (lo_malloc_handle env); [|by simplify_eq].
    unfold PyCapsule_New in Hmk. destruct (lo_capsule env) as [a|]; simplify_eq.
    exists (new_block w). eexists.
    unfold destroy_thread_handle, PyCapsule_GetPointer, load_tid, free. simpl.
    rewrite !lookup_insert_eq. split_and!; try done. simpl.
    by rewrite delete_insert_id by apply new_block_fresh.
  - intros who h w Htag.
    unfold destroy_thread_handle, PyCapsule_GetPointer.
    unfold has_tag in Htag.
    destruct (ob_kind h) as [| |p [n|]| | |]; try done.
    by rewrite Htag.
Qed.

Lemma handle_make_destroy_witness :
  (∃ q w2,
     PyCapsule_GetPointer sample_handle THREAD_HANDLE_NAME = inl q ∧
     load_tid q
       (mkWorld (<[2%positive := BThreadId 0%N]> {[1%positive := BUninit]}) ∅
                [(Main, EvMalloc 2%positive)])
     = Some (0%N, mkWorld (<[2%positive := BThreadId 0%N]> {[1%positive := BUninit]}) ∅
                          [(Main, EvMalloc 2%positive)]) ∧
     destroy_thread_handle Main sample_handle
       (mkWorld (<[2%positive := BThreadId 0%N]> {[1%positive := BUninit]}) ∅
                [(Main, EvMalloc 2%positive)]) = Some (tt, w2) ∧
     heap w2 = heap (mkWorld {[1%positive := BUninit]} ∅ []) ∧
     threads w2 = threads (mkWorld {[1%positive := BUninit]} ∅ [])) ∧
  destroy_thread_handle Main (mkObj 7 (KCapsule 1%positive (Some "other.handle"%string)))
    (mkWorld {[1%positive := BUninit]} ∅ [])
  = Some (tt, mkWorld {[1%positive := BUninit]} ∅ []).
Proof.
  split.
  - apply (proj1 handle_make_destroy Main Main sample_env 0%N
             (mkWorld {[1%positive := BUninit]} ∅ []) sample_handle
             (mkWorld (<[2%positive := BThreadId 0%N]> {[1%positive := BUninit]}) ∅
                      [(Main, EvMalloc 2%positive)])).
    vm_compute. reflexivity.
  - apply (proj2 handle_make_destroy Main
             (mkObj 7 (KCapsule 1%positive (Some "other.handle"%string)))
             (mkWorld {[1%positive := BUninit]} ∅ [])).
    reflexivity.
Defined.

(** Freeing a handle record keeps the world well-formed. *)
Lemma free_record_wf w q id :
  wf w →
  heap w !! q = Some (BThreadId id) →
  wf (mkWorld (delete q (heap w)) (threads w) (trace w ++ [(Main, EvFree q)])).
Proof.
  intros (Hthr & Hnone & Hdist) Hq.
  assert (only_by Main [(Main, EvFree q)]) as Hby
    by (apply only_by_cons, only_by_nil).
  split_and!; simpl.
  - intros tid t Ht. destruct (Hthr _ _ Ht) as [ti Hinv]. exists ti.
    eapply (thread_inv_frame _ ti w _ tid t t Main [(Main, EvFree q)]);
      [done | apply same_but_pending_refl | done | done | done |].
    intros Hrun. simpl. apply lookup_delete_ne. intros Heq.
    pose proof (running_owns_context _ _ _ _ _ Hinv Hrun) as Hown.
    rewrite <- Heq, Hq in Hown. discriminate.
  - intros tid Hn. rewrite (events_of_only_by _ Main) by done. by apply Hnone.
  - done.
Qed.

(** X7: the handle of a launch can be destroyed at any time, whether its
    thread is still running or not.  The destructor frees only the handle's
    record: no thread changes, every context of a thread that has not ended
    stays as it is, and the world stays well-formed, so that the threads go
    on to their completion as before. *)
Theorem destroy_handle_keeps_threads
    (env : LaunchOracle) (args : list PyObject) (w : World) (h : PyObject)
    (w1 : World) (acts : list Action) (w2 : World) :
  wf w →
  do_interruptably env args w = Some (PyOk h, w1) →
  run acts w1 = Some (tt, w2) →
  ∃ q w3,
    ob_kind h = KCapsule q (Some THREAD_HANDLE_NAME) ∧
    destroy_thread_handle Main h w2 = Some (tt, w3) ∧
    heap w3 = delete q (heap w2) ∧
    threads w3 = threads w2 ∧
    wf w3 ∧
    (∀ tid t, threads w2 !! tid = Some t → th_pc t ≠ pc_exited →
              heap w3 !! th_arg t = heap w2 !! th_arg t).
Proof.
  intros Hwf Hd Hrun.
  destruct (launch_ok_spawned _ _ _ _ _ Hd) as (_ & q & Hk & Hq).
  assert (wf w1) as Hwf1.
  { eapply main_step_wf; [done|]. by eapply do_interruptably_post. }
  pose proof (run_wf _ _ _ Hwf1 Hrun) as Hwf2.
  pose proof (run_keeps_record _ _ _ _ _ Hwf1 Hq Hrun) as Hq2.
  exists q. eexists. split; [done|].
  unfold destroy_thread_handle, PyCapsule_GetPointer, free. rewrite Hk. simpl.
  rewrite Hq2. split; [done|]. simpl. do 2 (split; [done|]).
  split; [by eapply free_record_wf|].
  intros tid t Ht Hlive. apply lookup_delete_ne. intros Heq.
  destruct Hwf2 as (Hthr & _). destruct (Hthr _ _ Ht) as [ti Hinv].
  pose proof (running_owns_context _ _ _ _ _ Hinv Hlive) as Hown.
  rewrite <- Heq, Hq2 in Hown. discriminate.
Qed.

Lemma destroy_handle_keeps_threads_witness :
  ∃ q w3,
    ob_kind sample_handle = KCapsule q (Some THREAD_HANDLE_NAME) ∧
    destroy_thread_handle Main sample_handle (sample_world sample_tick 4) = Some (tt, w3) ∧
    heap w3 = delete q (heap (sample_world sample_tick 4)) ∧
    threads w3 = threads (sample_world sample_tick 4) ∧
    wf w3 ∧
    (∀ tid t, threads (sample_world sample_tick 4) !! tid = Some t →
              th_pc t ≠ pc_exited →
              heap w3 !! th_arg t = heap (sample_world sample_tick 4) !! th_arg t).
Proof.
  apply (destroy_handle_keeps_threads sample_env sample_args empty_world sample_handle
           (sample_world sample_tick 0) (replicate 4 (ATick 0%N sample_tick))
           (sample_world sample_tick 4) wf_empty).
  - vm_compute. reflexivity.
  - vm_compute. reflexivity.
Defined.

(* ================================================================== *)
(** ** Memory safety of the whole system                               *)
(* ================================================================== *)

Lemma interrupt_defined args w :
  targets_live_thread w (AInterrupt args) = true →
  ∃ r w', interrupt args w = Some (r, w').
Proof.
  unfold targets_live_thread, interrupt, PyArg_ParseTuple_O.
  destruct args as [|h [|h2 rest]]; [by eauto| |by eauto].
  destruct (PyCapsule_CheckExact h); simpl; [|by eauto].
  destruct (PyCapsule_GetPointer h THREAD_HANDLE_NAME) as [p|e]; [|by eauto].
  unfold bind, load_tid, pthread_cancel.
  destruct (heap w !! p) as [[| |id]|]; try discriminate.
  destruct (threads w !! id) as [t|]; [|discriminate].
  intros Hlive. rewrite bool_decide_eq_false_2; [simpl; eauto|].
  by apply bool_decide_eq_true in Hlive.
Qed.

(** X8: the system is memory safe when it is used as intended.  From a
    well-formed world, every interleaving of launches, thread steps and
    [interrupt] calls is defined, provided each [interrupt] that is given
    a tagged capsule is given, at that moment, the handle of a thread that
    has not ended; handles of threads launched earlier in the same
    schedule included.  No thread ever reads or frees a context that has
    been freed, nothing is freed twice, and the world reached is
    well-formed again. *)
Theorem system_memory_safe (acts : list Action) (w : World) :
  wf w →
  interrupts_target_live acts w = true →
  ∃ w', run acts w = Some (tt, w') ∧ wf w'.
Proof.
  revert w. induction acts as [|a acts IH]; intros w Hwf Hlive.
  - exists w. by split.
  - simpl in Hlive. apply andb_prop in Hlive as [Ha Hrest].
    destruct (step_defined a w Hwf) as (w1 & Hs).
    { intros args ->. by apply interrupt_defined. }
    rewrite Hs in Hrest.
    rewrite run_cons, Hs. apply IH; [by eapply step_wf|done].
Qed.

Lemma system_memory_safe_witness :
  ∃ w', run [ATick 0%N sample_tick; AInterrupt [sample_handle];
             ALaunch (mkLaunchOracle true 0 0 0 true (Some 51%N)) sample_args;
             AInterrupt [mkObj 7 (KLong 5)]; ATick 1%N sample_tick_nobuild;
             AInterrupt [mkObj 51 (KCapsule 4%positive (Some THREAD_HANDLE_NAME))];
             ATick 0%N sample_tick; ATick 1%N sample_tick_nobuild;
             ATick 1%N sample_tick_nobuild; ATick 1%N sample_tick_nobuild;
             AInterrupt []]
            (sample_world sample_tick 3) = Some (tt, w') ∧ wf w'.
Proof.
  apply (system_memory_safe
           [ATick 0%N sample_tick; AInterrupt [sample_handle];
            ALaunch (mkLaunchOracle true 0 0 0 true (Some 51%N)) sample_args;
            AInterrupt [mkObj 7 (KLong 5)]; ATick 1%N sample_tick_nobuild;
            AInterrupt [mkObj 51 (KCapsule 4%positive (Some THREAD_HANDLE_NAME))];
            ATick 0%N sample_tick; ATick 1%N sample_tick_nobuild;
            ATick 1%N sample_tick_nobuild; ATick 1%N sample_tick_nobuild;
            AInterrupt []]
           (sample_world sample_tick 3) (sample_world_wf sample_tick 3)).
  vm_compute. reflexivity.
Defined.

(* ================================================================== *)
(** ** Cancellation after the window                                   *)
(* ================================================================== *)

Opaque bridge_events.

(** A step of a thread that has disabled cancellation: a pending request
    is not acted on, the thread pops the handler and runs the bridge with
    [ok_cbak]. *)
Lemma tick_own_disabled tid o w t ti fn :
  threads w !! tid = Some t →
  routine ti = Some fn →
  running_inv ti fn w tid t →
  th_pc t ≠ pc_exited →
  (6 ≤ pc_index (th_pc t))%nat →
  ∃ w' t',
    tick tid o w = Some (tt, w') ∧ threads w' !! tid = Some t' ∧
    th_arg t' = th_arg t ∧
    ((th_pc t' ≠ pc_exited ∧ (6 ≤ pc_index (th_pc t'))%nat) ∨
     (th_pc t' = pc_exited ∧
      events_of (Thr tid) (trace w') = completed_events o ti (th_arg t) fn)).
Proof.
  intros Ht Hfn (Hheap & Hev & Hcs & Hct & Hcl) Hpc Hidx.
  destruct t as [p pc cs ct pend cl]. simpl in *. subst cs ct cl.
  unfold tick. rewrite Ht. simpl.
  rewrite bool_decide_eq_false_2 by done.
  unfold cancellable. simpl.
  destruct pend, pc; simpl in *; try done; try lia;
    thread_step_tac Hheap; rewrite ?Hfn; simpl;
    try (rewrite (handler_exec_spec _ _ _ _ _ ti) by done; simpl);
    (eexists _, _; split; [reflexivity|]); simpl;
    rewrite lookup_insert_eq; (split; [reflexivity|]); simpl;
    (split; [reflexivity|]);
    first [ left; split; [done|lia]
          | right; (split; [done|]); rewrite <- ?app_assoc; events_tac Hev; done ].
Qed.

Transparent bridge_events.

Lemma past_disable_frame ti w w' tid t t' :
  past_disable ti w tid t →
  same_but_pending t t' →
  events_of (Thr tid) (trace w') = events_of (Thr tid) (trace w) →
  past_disable ti w' tid t'.
Proof.
  intros Hl (Harg & Hpc & _) Hev. unfold past_disable in *.
  by rewrite Hpc, Harg, Hev.
Qed.

Lemma step_past_disable (P : TickOracle → Prop) a w w' tid t ti :
  wf w →
  threads w !! tid = Some t →
  thread_inv P ti w tid t →
  past_disable ti w tid t →
  step a w = Some (tt, w') →
  ∃ t', threads w' !! tid = Some t' ∧ past_disable ti w' tid t'.
Proof.
  intros Hwf Ht Hinv Hl Hstep.
  destruct a as [env args|args|tid0 o]; simpl in Hstep.
  - unfold bind, ret in Hstep.
    destruct (do_interruptably env args w) as [[r w1]|] eqn:Hd; [|discriminate].
    simplify_eq. apply do_interruptably_post in Hd.
    destruct (main_step_thread_inv _ _ _ _ _ _ Hd Ht Hinv) as (t' & Ht' & Hs & _).
    exists t'. split; [done|].
    eapply past_disable_frame; [done..|]. by apply main_step_events.
  - unfold bind, ret in Hstep.
    destruct (interrupt args w) as [[r w1]|] eqn:Hd; [|discriminate].
    simplify_eq. apply interrupt_post in Hd.
    destruct (main_step_thread_inv _ _ _ _ _ _ Hd Ht Hinv) as (t' & Ht' & Hs & _).
    exists t'. split; [done|].
    eapply past_disable_frame; [done..|]. by apply main_step_events.
  - destruct (decide (tid0 = tid)) as [->|Hne].
    + destruct Hinv as (fn & Hfn & Hinv). unfold past_disable in *.
      destruct (decide (th_pc t = pc_exited)) as [He|He].
      * rewrite (tick_exited _ _ _ _ Ht He) in Hstep. simplify_eq.
        exists t. split; [done|]. by rewrite decide_True.
      * destruct (tick_own_disabled tid o w t ti fn Ht Hfn Hinv He Hl)
          as (w1 & t' & Hw1 & Ht' & Harg & Hcase).
        rewrite Hw1 in Hstep. simplify_eq.
        exists t'. split; [done|].
        destruct Hcase as [[Hr Hidx]|(Hex & Hev)].
        -- by rewrite decide_False.
        -- rewrite decide_True by done. exists o, fn. by rewrite Harg.
    + destruct (threads w !! tid0) as [t0|] eqn:Ht0.
      2: { rewrite tick_absent in Hstep by done. simplify_eq. eauto. }
      pose proof Hwf as (Hthr & _). destruct (Hthr _ _ Ht0) as [ti0 Hinv0].
      destruct (tick_own _ tid0 o w t0 ti0 I Ht0 Hinv0) as (w1 & Hw1 & Hpost).
      rewrite Hw1 in Hstep. simplify_eq.
      destruct (own_step_other _ _ _ _ _ _ _ _ _ _ Hwf Ht0 Hpost (not_eq_sym Hne) Ht Hinv)
        as (Ht' & _).
      exists t. split; [done|].
      eapply past_disable_frame; [done|apply same_but_pending_refl|].
      destruct Hpost as (t0' & tr' & _ & _ & _ & Htr & Hby & _).
      rewrite Htr, (events_of_only_by _ (Thr tid0)); [done..|congruence].
Qed.

Lemma run_past_disable (P : TickOracle → Prop) acts w w' tid t ti :
  wf w →
  threads w !! tid = Some t →
  thread_inv P ti w tid t →
  Forall (λ a, ∀ o, a = ATick tid o → P o) acts →
  past_disable ti w tid t →
  run acts w = Some (tt, w') →
  ∃ t', threads w' !! tid = Some t' ∧ past_disable ti w' tid t'.
Proof.
  revert w t. induction acts as [|a acts IH]; intros w t Hwf Ht Hinv HP Hl Hrun.
  - simpl in Hrun. unfold ret in Hrun. simplify_eq. eauto.
  - rewrite run_cons in Hrun.
    destruct (step a w) as [[[] w1]|] eqn:Hs; [|discriminate].
    apply Forall_cons in HP as [HPa HP].
    destruct (step_thread_inv P _ _ _ _ _ _ Hwf Ht Hinv HPa Hs) as (t1 & Ht1 & _ & Hinv1).
    destruct (step_past_disable P _ _ _ _ _ _ Hwf Ht Hinv Hl Hs) as (t1' & Ht1' & Hl1).
    simplify_eq.
    by eapply (IH w1 t1 (step_wf _ _ _ Hwf Hs)).
Qed.

(** X9: a cancellation request that arrives after the thread has disabled
    cancellation (line 117) comes too late.  Whatever calls of [interrupt]
    follow, the thread is not cancelled: when it ends it has run the whole
    sequence and the bridge with [ok_cbak]; the cleanup handler never ran
    and [cancel_cbak] was not invoked through it.  The routine entered is
    the value [v] that the first argument of the launch converts to under
    format [L]. *)
Theorem late_cancel_is_ignored
    (env : LaunchOracle) (args : list PyObject) (w : World) (h : PyObject)
    (w1 : World) (acts1 : list Action) (w2 : World) (t2 : Thread)
    (acts2 : list Action) (w3 : World) (t3 : Thread) :
  wf w →
  do_interruptably env args w = Some (PyOk h, w1) →
  run acts1 w1 = Some (tt, w2) →
  threads w2 !! new_tid w = Some t2 →
  th_pc t2 ≠ pc_exited →
  (6 ≤ pc_index (th_pc t2))%nat →
  run acts2 w2 = Some (tt, w3) →
  threads w3 !! new_tid w = Some t3 →
  th_pc t3 = pc_exited →
  ∃ fn ok cancel err arg v o,
    args = [fn; ok; cancel; err; arg] ∧ PyLong_AsLongLong fn = inl v ∧
    events_of (Thr (new_tid w)) (trace w3) =
      prologue (th_arg t3) v ++
      bridge_events o (launched_info v ok cancel err arg) (th_arg t3) ok ∧
    (EvCancelActed ∉ events_of (Thr (new_tid w)) (trace w3)) ∧
    (calls_in (events_of (Thr (new_tid w)) (trace w3)) = [] ∨
     calls_in (events_of (Thr (new_tid w)) (trace w3)) = [(ok, [arg])]).
Proof.
  intros Hwf Hd Hrun1 Ht2 Hr2 Hidx Hrun2 Ht3 He3.
  destruct (launch_ok_spawned _ _ _ _ _ Hd) as (Ht0 & _).
  destruct (launch_thread_inv (λ _, True) env args w _ w1 _ acts1 w2 Hwf Hd Ht0)
    as (fn & v & ok & cancel & err & arg & t & -> & Hk & Ht & Ha & Hinv);
    [by apply Forall_forall | done |].
  simplify_eq.
  assert (wf w2) as Hwf2.
  { eapply run_wf; [|done]. eapply main_step_wf; [done|].
    by eapply do_interruptably_post. }
  assert (past_disable (launched_info v ok cancel err arg) w2 (new_tid w) t2) as Hl.
  { unfold past_disable. by rewrite decide_False. }
  destruct (run_past_disable (λ _, True) acts2 w2 w3 _ _ _ Hwf2 Ht2 Hinv)
    as (t' & Ht' & Hl'); [by apply Forall_forall | done | done |].
  simplify_eq. unfold past_disable in Hl'. rewrite decide_True in Hl' by done.
  destruct Hl' as (o & f & Hf & Hev).
  cbn [routine launched_info] in Hf. simplify_eq.
  exists fn, ok, cancel, err, arg, f, o. do 2 (split; [done|]).
  unfold completed_events in Hev.
  cbn [ok_cbak cancel_cbak data launched_info] in Hev.
  split; [done|]. rewrite Hev.
  destruct (bridge_events_release o (launched_info f ok cancel err arg)
              (th_arg t3) ok) as (head & Hhead & Hfr & Hca).
  split.
  - intros Hin. apply elem_of_app in Hin as [Hin|Hin].
    + unfold prologue in Hin.
      repeat (apply elem_of_cons in Hin as [Hin|Hin]; [discriminate|]).
      by apply elem_of_nil in Hin.
    + unfold bridge_events in Hin.
      destruct (to_build_ok o), (to_call_result o); simpl in Hin;
        repeat (apply elem_of_cons in Hin as [Hin|Hin]; [discriminate|]);
        by apply elem_of_nil in Hin.
  - rewrite Hhead, !calls_in_app, Hca. cbn [data launched_info].
    unfold prologue. destruct (to_build_ok o); simpl; eauto.
Qed.

Lemma late_cancel_is_ignored_witness :
  ∃ w3 t3,
    run [AInterrupt [sample_handle]; ATick 0%N sample_tick; ATick 0%N sample_tick]
      (sample_world sample_tick 6) = Some (tt, w3) ∧
    threads w3 !! new_tid empty_world = Some t3 ∧
    th_pending t3 = true ∧ th_pc t3 = pc_exited ∧
    ∃ fn ok cancel err arg v o,
      sample_args = [fn; ok; cancel; err; arg] ∧ PyLong_AsLongLong fn = inl v ∧
      events_of (Thr (new_tid empty_world)) (trace w3) =
        prologue (th_arg t3) v ++
        bridge_events o (launched_info v ok cancel err arg) (th_arg t3) ok ∧
      (EvCancelActed ∉ events_of (Thr (new_tid empty_world)) (trace w3)) ∧
      (calls_in (events_of (Thr (new_tid empty_world)) (trace w3)) = [] ∨
       calls_in (events_of (Thr (new_tid empty_world)) (trace w3)) = [(ok, [arg])]).
Proof.
  eexists _, _.
  split; [vm_compute; reflexivity|].
  split; [vm_compute; reflexivity|].
  split; [reflexivity|]. split; [reflexivity|].
  eapply (late_cancel_is_ignored sample_env sample_args empty_world sample_handle
            (sample_world sample_tick 0) (replicate 6 (ATick 0%N sample_tick))
            (sample_world sample_tick 6)
            (mkThread 1%positive pc_cleanup_pop false true false
                      [(H_nativethread_cancel_handler, 1%positive)])
            [AInterrupt [sample_handle]; ATick 0%N sample_tick; ATick 0%N sample_tick]
            _ _ wf_empty).
  - vm_compute. reflexivity.
  - vm_compute. reflexivity.
  - vm_compute. reflexivity.
  - discriminate.
  - simpl. lia.
  - vm_compute. reflexivity.
  - vm_compute. reflexivity.
  - reflexivity.
Defined.

(* ================================================================== *)
(** ** Further properties of the two module functions                  *)
(* ================================================================== *)

(** X10: [interrupt] hands its caller a new reference exactly when it
    succeeds.  Its result is then [None], and the one reference it took is
    on [None]; when it fails it has taken no reference at all. *)
Theorem interrupt_returns_new_reference
    (args : list PyObject) (w : World) (r : PyResult) (w' : World) :
  interrupt args w = Some (r, w') →
  ∃ evs,
    trace w' = trace w ++ map (pair Main) evs ∧
    match r with
    | PyOk o =>
        o = Py_None ∧
        ∀ a, retained a evs = if bool_decide (ob_addr Py_None = a) then 1 else 0
    | PyNULL _ => ∀ a, retained a evs = 0
    end.
Proof.
  unfold interrupt. intros H.
  destruct (PyArg_ParseTuple_O args) as [h|e];
    [|inversion H; subst; exists []; by rewrite app_nil_r].
  destruct (negb (PyCapsule_CheckExact h));
    [inversion H; subst; exists []; by rewrite app_nil_r|].
  destruct (PyCapsule_GetPointer h THREAD_HANDLE_NAME) as [p|e];
    [|inversion H; subst; exists []; by rewrite app_nil_r].
  unfold bind, load_tid in H.
  destruct (heap w !! p) as [[| |id]|]; try discriminate.
  destruct (pthread_cancel Main id w) as [[rc w1]|] eqn:Hc; [|discriminate].
  apply pthread_cancel_post in Hc as (_ & Htr & _).
  case_bool_decide; unfold Py_INCREF, emit, ret in H; simpl in H; simplify_eq;
    simpl; rewrite Htr.
  - by exists [EvPthreadCancel id rc].
  - exists [EvPthreadCancel id 0; EvIncref Py_None].
    rewrite <- app_assoc. split; [done|]. split; [done|].
    intros a. simpl. case_bool_decide; lia.
Qed.

Lemma interrupt_returns_new_reference_witness :
  ∃ evs,
    trace (mkWorld (heap (sample_world sample_tick 4))
             (<[0%N := mkThread 1%positive pc_in_routine true true true
                         [(H_nativethread_cancel_handler, 1%positive)]]>
                (threads (sample_world sample_tick 4)))
             (trace (sample_world sample_tick 4) ++
              [(Main, EvPthreadCancel 0%N 0); (Main, EvIncref Py_None)]))
    = trace (sample_world sample_tick 4) ++ map (pair Main) evs ∧
    (Py_None = Py_None ∧
     ∀ a, retained a evs = if bool_decide (ob_addr Py_None = a) then 1 else 0).
Proof.
  apply (interrupt_returns_new_reference [sample_handle] (sample_world sample_tick 4)
           (PyOk Py_None)
           (mkWorld (heap (sample_world sample_tick 4))
              (<[0%N := mkThread 1%positive pc_in_routine true true true
                          [(H_nativethread_cancel_handler, 1%positive)]]>
                 (threads (sample_world sample_tick 4)))
              (trace (sample_world sample_tick 4) ++
               [(Main, EvPthreadCancel 0%N 0); (Main, EvIncref Py_None)]))).
  vm_compute. reflexivity.
Defined.

(** X11: the handles of two threads that are both running never alias.
    If the thread of an earlier launch has not ended when a later launch
    succeeds, the two launches have different thread identifiers, contexts
    and handle records, each record holds its own thread's identifier, and
    [interrupt] on either handle requests the cancellation of its own
    thread and leaves the state of the other thread as it is. *)
Theorem launches_do_not_alias
    (env1 : LaunchOracle) (args1 : list PyObject) (w : World) (h1 : PyObject)
    (w1 : World) (acts : list Action) (w2 : World) (t1 : Thread)
    (env2 : LaunchOracle) (args2 : list PyObject) (h2 : PyObject) (w3 : World) :
  wf w →
  do_interruptably env1 args1 w = Some (PyOk h1, w1) →
  run acts w1 = Some (tt, w2) →
  threads w2 !! new_tid w = Some t1 →
  th_pc t1 ≠ pc_exited →
  do_interruptably env2 args2 w2 = Some (PyOk h2, w3) →
  new_tid w ≠ new_tid w2 ∧
  th_arg t1 ≠ new_block w2 ∧
  (∃ q1 q2,
     ob_kind h1 = KCapsule q1 (Some THREAD_HANDLE_NAME) ∧
     ob_kind h2 = KCapsule q2 (Some THREAD_HANDLE_NAME) ∧
     q1 ≠ q2 ∧
     heap w3 !! q1 = Some (BThreadId (new_tid w)) ∧
     heap w3 !! q2 = Some (BThreadId (new_tid w2))) ∧
  (∃ w4, interrupt [h1] w3 = Some (PyOk Py_None, w4) ∧
         threads w4 !! new_tid w2 = threads w3 !! new_tid w2 ∧
         ∃ t, threads w4 !! new_tid w = Some t ∧ th_pending t = true) ∧
  (∃ w4, interrupt [h2] w3 = Some (PyOk Py_None, w4) ∧
         threads w4 !! new_tid w = threads w3 !! new_tid w ∧
         ∃ t, threads w4 !! new_tid w2 = Some t ∧ th_pending t = true).
Proof.
  intros Hwf Hd1 Hrun Ht1 Hlive Hd2.
  destruct (launch_ok_spawned _ _ _ _ _ Hd1) as (Ht0 & q1 & Hk1 & Hq1).
  destruct (launch_ok_spawned _ _ _ _ _ Hd2) as (Ht2 & q2 & Hk2 & Hq2).
  assert (wf w1) as Hwf1.
  { eapply main_step_wf; [done|]. by eapply do_interruptably_post. }
  pose proof (run_wf _ _ _ Hwf1 Hrun) as Hwf2.
  pose proof (run_keeps_record _ _ _ _ _ Hwf1 Hq1 Hrun) as Hq12.
  pose proof (do_interruptably_post _ _ _ _ _ Hd2) as (_ & Hheap & Hold & _).
  pose proof (Hheap _ _ Hq12) as Hq13.
  destruct (Hold _ _ Ht1) as (t1' & Ht1' & _ & Hpc1 & _).
  assert (new_tid w ≠ new_tid w2) as Hne.
  { intros Heq. pose proof (new_tid_fresh w2) as Hf. rewrite <- Heq in Hf. congruence. }
  assert (q1 ≠ q2) as Hq.
  { intros ->. rewrite Hq13 in Hq2. by simplify_eq. }
  split; [done|]. split.
  { intros Heq. destruct Hwf2 as (Hthr & _). destruct (Hthr _ _ Ht1) as [ti Hinv].
    pose proof (running_owns_context _ _ _ _ _ Hinv Hlive) as Hown.
    rewrite Heq, new_block_fresh in Hown. discriminate. }
  split; [by exists q1, q2|]. split.
  - eexists. split.
    + apply (interrupt_success_spec h1 q1 (new_tid w) t1'); try done. congruence.
    + simpl. split; [by rewrite lookup_insert_ne|].
      rewrite lookup_insert_eq. eauto.
  - eexists. split.
    + by apply (interrupt_success_spec h2 q2 (new_tid w2)
                  (initial_thread (new_block w2))).
    + simpl. split; [by rewrite lookup_insert_ne|].
      rewrite lookup_insert_eq. eauto.
Qed.

Lemma launches_do_not_alias_witness :
  ∃ h2 w3,
    do_interruptably (mkLaunchOracle true 0 0 0 true (Some 51%N)) sample_args
      (sample_world sample_tick 4) = Some (PyOk h2, w3) ∧
    new_tid empty_world ≠ new_tid (sample_world sample_tick 4) ∧
    th_arg (mkThread 1%positive pc_in_routine true true false
              [(H_nativethread_cancel_handler, 1%positive)])
      ≠ new_block (sample_world sample_tick 4) ∧
    (∃ q1 q2,
       ob_kind sample_handle = KCapsule q1 (Some THREAD_HANDLE_NAME) ∧
       ob_kind h2 = KCapsule q2 (Some THREAD_HANDLE_NAME) ∧
       q1 ≠ q2 ∧
       heap w3 !! q1 = Some (BThreadId (new_tid empty_world)) ∧
       heap w3 !! q2 = Some (BThreadId (new_tid (sample_world sample_tick 4)))) ∧
    (∃ w4, interrupt [sample_handle] w3 = Some (PyOk Py_None, w4) ∧
           threads w4 !! new_tid (sample_world sample_tick 4)
             = threads w3 !! new_tid (sample_world sample_tick 4) ∧
           ∃ t, threads w4 !! new_tid empty_world = Some t ∧ th_pending t = true) ∧
    (∃ w4, interrupt [h2] w3 = Some (PyOk Py_None, w4) ∧
           threads w4 !! new_tid empty_world = threads w3 !! new_tid empty_world ∧
           ∃ t, threads w4 !! new_tid (sample_world sample_tick 4) = Some t ∧
                th_pending t = true).
Proof.
  eexists _, _. split; [vm_compute; reflexivity|].
  eapply (launches_do_not_alias sample_env sample_args empty_world sample_handle
            (sample_world sample_tick 0) (replicate 4 (ATick 0%N sample_tick))
            (sample_world sample_tick 4) _
            (mkLaunchOracle true 0 0 0 true (Some 51%N)) sample_args _ _ wf_empty).
  - vm_compute. reflexivity.
  - vm_compute. reflexivity.
  - vm_compute. reflexivity.
  - discriminate.
  - vm_compute. reflexivity.
Defined.

(** X12: a call with the wrong number of arguments is rejected with
    [TypeError] before anything else is looked at: [do_interruptably]
    frees the context it allocated and starts no thread, [interrupt]
    leaves the world as it is. *)
Theorem wrong_arity_rejected :
  (∀ env args w,
     lo_malloc_info env = true →
     length args ≠ 5%nat →
     ∃ e w',
       do_interruptably env args w = Some (PyNULL e, w') ∧
       err_type e = PyExc_TypeError ∧
       heap w' = heap w ∧ threads w' = threads w ∧
       trace w' = trace w ++ [(Main, EvMalloc (new_block w));
                              (Main, EvFree (new_block w))]) ∧
  (∀ args w,
     length args ≠ 1%nat →
     ∃ e, interrupt args w = Some (PyNULL e, w) ∧ err_type e = PyExc_TypeError).
Proof.
  split.
  - intros env args w Hm Hlen.
    assert (∃ e, PyArg_ParseTuple_LOOOO args = inr e ∧ err_type e = PyExc_TypeError)
      as (e & Hp & He).
    { unfold PyArg_ParseTuple_LOOOO.
      destruct args as [|b0 [|b1 [|b2 [|b3 [|b4 [|b5 rest]]]]]]; simpl in Hlen;
        try done; eauto. }
    erewrite launch_parse_error by done. by eexists _, _.
  - intros args w Hlen. unfold interrupt, PyArg_ParseTuple_O.
    destruct args as [|h [|h2 rest]]; simpl in Hlen; try done; eauto.
Qed.

Lemma wrong_arity_rejected_witness :
  (∃ e w',
     do_interruptably sample_env [] empty_world = Some (PyNULL e, w') ∧
     err_type e = PyExc_TypeError ∧
     heap w' = heap empty_world ∧ threads w' = threads empty_world ∧
     trace w' = trace empty_world ++ [(Main, EvMalloc (new_block empty_world));
                                      (Main, EvFree (new_block empty_world))]) ∧
  (∃ e, interrupt [sample_handle; sample_handle] (sample_world sample_tick 4)
          = Some (PyNULL e, sample_world sample_tick 4) ∧
        err_type e = PyExc_TypeError).
Proof.
  split.
  - apply (proj1 wrong_arity_rejected sample_env [] empty_world).
    + reflexivity.
    + discriminate.
  - apply (proj2 wrong_arity_rejected [sample_handle; sample_handle]
             (sample_world sample_tick 4)).
    discriminate.
Defined.

(* ================================================================== *)
(** ** The GIL and the isolation of threads                            *)
(* ================================================================== *)

Lemma thread_inv_gil (P : TickOracle → Prop) ti w tid t :
  thread_inv P ti w tid t →
  gil_guarded false (events_of (Thr tid) (trace w)) = true.
Proof.
  intros (fn & Hfn & Hinv).
  destruct (decide (th_pc t = pc_exited)) as [He|He].
  - destruct Hinv as (o & _ & [Hev|(k & Hk & Hev)]); rewrite Hev.
    + unfold completed_events, prologue, bridge_events.
      by destruct (to_build_ok o), (to_call_result o).
    + assert (k = 3 ∨ k = 4 ∨ k = 5)%nat as Hcases by lia.
      unfold cancelled_events, prologue, bridge_events.
      destruct Hcases as [Hc|[Hc|Hc]]; subst k;
        by destruct (to_build_ok o), (to_call_result o).
  - destruct Hinv as (_ & Hev & _). rewrite Hev.
    unfold prologue. by destruct (th_pc t).
Qed.

(** X13: the threads the module starts keep the GIL discipline.  In every
    world a schedule can lead to, the events of each thread touch Python
    objects only between a [PyGILState_Ensure] and the matching
    [PyGILState_Release], the two alternate, and no thread is left holding
    the GIL. *)
Theorem threads_keep_gil_discipline (acts : list Action) (w w' : World)
    (tid : pthread_t) :
  wf w →
  run acts w = Some (tt, w') →
  gil_guarded false (events_of (Thr tid) (trace w')) = true.
Proof.
  intros Hwf Hrun. pose proof (run_wf _ _ _ Hwf Hrun) as (Hthr & Hnone & _).
  destruct (threads w' !! tid) as [t|] eqn:Ht.
  - destruct (Hthr _ _ Ht) as [ti Hinv]. by eapply thread_inv_gil.
  - by rewrite Hnone.
Qed.

Lemma threads_keep_gil_discipline_witness :
  ∃ w',
    run (ALaunch sample_env sample_args ::
         [ATick 0%N sample_tick; ATick 0%N sample_tick; ATick 0%N sample_tick;
          AInterrupt [sample_handle]; ATick 0%N sample_tick]) empty_world
      = Some (tt, w') ∧
    gil_guarded false (events_of (Thr 0%N) (trace w')) = true ∧
    EvGILEnsure ∈ events_of (Thr 0%N) (trace w').
Proof.
  eexists. split; [vm_compute; reflexivity|]. split.
  - apply (threads_keep_gil_discipline
             (ALaunch sample_env sample_args ::
              [ATick 0%N sample_tick; ATick 0%N sample_tick; ATick 0%N sample_tick;
               AInterrupt [sample_handle]; ATick 0%N sample_tick])
             empty_world _ 0%N wf_empty).
    vm_compute. reflexivity.
  - vm_compute. repeat (apply elem_of_cons; first [left; reflexivity | right]).
Defined.




(** X15: a launch, whatever its outcome, touches nothing that was there
    before.  Every other entry of the thread table is exactly as it was
    (no thread is cancelled or restarted), every allocated block is still
    allocated with the same content, no thread gains an event, and when
    the launch starts no thread it returns an error and leaves the heap as
    it found it. *)
Theorem launch_is_a_frame (env : LaunchOracle) (args : list PyObject) (w : World) :
  ∃ r w',
    do_interruptably env args w = Some (r, w') ∧
    (∀ tid, tid ≠ new_tid w → threads w' !! tid = threads w !! tid) ∧
    (∀ q b, heap w !! q = Some b → heap w' !! q = Some b) ∧
    (∀ tid, events_of (Thr tid) (trace w') = events_of (Thr tid) (trace w)) ∧
    (threads w' !! new_tid w = None → heap w' = heap w ∧ ∃ e, r = PyNULL e).
Proof.
  destruct (launch_total env args w) as (r & w' & Hd).
  exists r, w'. split; [done|].
  pose proof (do_interruptably_post _ _ _ _ _ Hd) as Hpost.
  pose proof Hpost as (_ & Hheap & _).
  assert ((∀ tid, tid ≠ new_tid w → threads w' !! tid = threads w !! tid) ∧
          (threads w' !! new_tid w = None → heap w' = heap w ∧ ∃ e, r = PyNULL e))
    as [Hthr Hnone].
  { destruct (lo_malloc_info env) eqn:Hm.
    2: { rewrite launch_no_memory in Hd by done. simplify_eq.
         unfold PyErr_NoMemory. eauto. }
    destruct (PyArg_ParseTuple_LOOOO args) as [[[[[fn a1] a2] a3] a4]|e] eqn:Hp.
    2: { erewrite launch_parse_error in Hd by done. simplify_eq. simpl. eauto. }
    destruct (all_callable a1 a2 a3) eqn:Hc.
    2: { erewrite launch_not_callable in Hd by done. simplify_eq. simpl. eauto. }
    destruct (decide (start_failed env = 0)) as [Hf|Hf].
    2: { erewrite launch_start_failed in Hd by done. simplify_eq. simpl. eauto. }
    erewrite launch_started in Hd by done.
    rewrite make_thread_handle_spec in Hd.
    destruct (lo_malloc_handle env); simplify_eq; simpl; split;
      try (intros tid Hne; by rewrite lookup_insert_ne);
      rewrite lookup_insert_eq; discriminate. }
  split_and!; try done.
  intros tid. by apply main_step_events.
Qed.
